(** * The data acquisition agent of kade-connect

    A shallow embedding of
    [backend/agents/data_acquisition/agent.py]: the output parser
    [ProductDataParser.parse] with its regular-expression fallback, the
    image-quality score, the structured extractor [_parse_with_llm], the
    pipeline [process_image] and [validate_product_data].

    Python values are modelled as follows.
    - [str] is a list of Unicode code points ([N]).
    - [float] is IEEE 754 binary64, Rocq's primitive [float]; the literals
      [0.7], [0.1], [0.3] denote the nearest binary64 value, as in Python.
    - Exceptions are values of [exn]; a computation that can raise and that
      touches the outside world lives in the monad [M]
      (state passing with an error result).
    - The libraries the agent calls (OpenCV, numpy, the vision client, the
      language model, [json], pydantic's coercions, the Unicode digit table,
      the clock) are the fields of a [World]; the general theorems
      quantify over the world, the examples run in [test_world]. *)

From Stdlib Require Import ZArith NArith Floats Ascii String DecimalString List Bool Lia.
From stdpp Require Import base option list gmap strings fin_maps.

Set Warnings "-inexact-float,-register-all".
Local Open Scope N_scope.

(** ** Python strings *)

Definition str : Type := list N.

Definition chr (a : ascii) : N := N_of_ascii a.

(** An ASCII literal of the source as a [str]. *)
Definition lit (s : string) : str := map chr (list_ascii_of_string s).

(** [Py_UNICODE_ISSPACE]: the characters [str.strip] removes and the
    pattern [\s] matches. *)
Definition isspace (x : N) : bool :=
  ((9 <=? x) && (x <=? 13)) || ((28 <=? x) && (x <=? 32))
  || (x =? 0x85) || (x =? 0xA0) || (x =? 0x1680)
  || ((0x2000 <=? x) && (x <=? 0x200A))
  || (x =? 0x2028) || (x =? 0x2029) || (x =? 0x202F) || (x =? 0x205F)
  || (x =? 0x3000).

Fixpoint lstrip (s : str) : str :=
  match s with
  | x :: s' => if isspace x then lstrip s' else s
  | [] => []
  end.

Definition rstrip (s : str) : str := rev (lstrip (rev s)).

Definition strip (s : str) : str := rstrip (lstrip s).

Definition startswith (s prefix : str) : bool :=
  bool_decide (take (length prefix) s = prefix).

(** Truth value of a [str]: the empty string is falsy. *)
Definition str_truthy (s : str) : bool :=
  match s with [] => false | _ :: _ => true end.

(** ** Regular expressions ([re.search] with [re.IGNORECASE])

    The fragment of [re] the five patterns of [parse] are written in:
    character sets, concatenation, the greedy quantifiers [+], [*], [?]
    on a character set, and one capturing group. *)

Inductive cset : Type :=
| CChar (c : N)            (* a literal character *)
| CSpace                   (* \s *)
| CDigit                   (* \d *)
| CUnion (a b : cset)      (* [ab] *)
| CNot (a : cset).         (* [^a] *)

Inductive regex : Type :=
| REps
| RSet (cs : cset)
| RSeq (r1 r2 : regex)
| RPlus (cs : cset)
| RStar (cs : cset)
| ROpt (cs : cset)
| RGroup (r : regex).

(** Lower-casing as [sre] does it, on the code points whose lower case is
    an ASCII character: the ASCII capitals, U+0130 and U+212A. *)
Definition sre_lower (x : N) : N :=
  if (65 <=? x) && (x <=? 90) then x + 32
  else if x =? 0x130 then 0x69
  else if x =? 0x212A then 0x6B
  else x.

(** A literal [c] of a pattern against the character [x]; under
    [re.IGNORECASE] the comparison is on lower case, with the two extra
    equivalences of [sre] for the letters i and s (U+0131, U+017F). *)
Definition lit_match (icase : bool) (c x : N) : bool :=
  (x =? c)
  || (icase && ((sre_lower x =? c)
                || ((c =? 0x69) && (x =? 0x131))
                || ((c =? 0x73) && (x =? 0x17F)))).

Section Matcher.
(** The Unicode decimal digits (category Nd) and their values. *)
Variable decimal : N -> option N.
Variable icase : bool.

Fixpoint cset_match (cs : cset) (x : N) : bool :=
  match cs with
  | CChar c => lit_match icase c x
  | CSpace => isspace x
  | CDigit => bool_decide (is_Some (decimal x))
  | CUnion a b => cset_match a x || cset_match b x
  | CNot a => negb (cset_match a x)
  end.

(** A greedy repetition: take as many characters as match, give them
    back one at a time while the rest of the pattern fails. *)
Fixpoint greedy {R : Type} (p : N -> bool) (k : str -> option R) (s : str)
  : option R :=
  match s with
  | x :: s' =>
      if p x then
        match greedy p k s' with
        | Some r => Some r
        | None => k s
        end
      else k s
  | [] => k s
  end.

(** Backtracking match of [r] at the head of [s]; [g] is the text of
    group 1 so far, [k] the rest of the pattern. *)
Fixpoint rmatch {R : Type} (r : regex) (s : str) (g : option str)
    (k : str -> option str -> option R) : option R :=
  match r with
  | REps => k s g
  | RSet cs =>
      match s with
      | x :: s' => if cset_match cs x then k s' g else None
      | [] => None
      end
  | RSeq r1 r2 => rmatch r1 s g (fun s' g' => rmatch r2 s' g' k)
  | RPlus cs =>
      match s with
      | x :: s' =>
          if cset_match cs x
          then greedy (cset_match cs) (fun s'' => k s'' g) s'
          else None
      | [] => None
      end
  | RStar cs => greedy (cset_match cs) (fun s' => k s' g) s
  | ROpt cs =>
      match s with
      | x :: s' =>
          if cset_match cs x then
            match k s' g with
            | Some r => Some r
            | None => k s g
            end
          else k s g
      | [] => k s g
      end
  | RGroup r1 =>
      rmatch r1 s g
        (fun s' _ => k s' (Some (take (length s - length s') s)))
  end.

(** [re.search]: the leftmost position at which the pattern matches.
    The match object is reduced to [m.group(1)]. *)
Fixpoint re_search (r : regex) (s : str) : option (option str) :=
  match rmatch r s None (fun _ g => Some g) with
  | Some g => Some g
  | None =>
      match s with
      | _ :: s' => re_search r s'
      | [] => None
      end
  end.
End Matcher.

Definition re_str (s : string) : regex :=
  foldr (fun c r => RSeq (RSet (CChar c)) r) REps (lit s).

Definition re_seq (rs : list regex) : regex := foldr RSeq REps rs.

Definition sep_set : cset := CUnion (CChar (chr ":")) CSpace.   (* [:\s] *)
Definition line_set : cset := CNot (CChar 10).                  (* [^\n] *)
Definition dot_set : cset := CChar (chr ".").                   (* \. *)

Definition label_sep : regex := RPlus sep_set.                  (* [:\s]+ *)
Definition rest_of_line : regex := RGroup (RPlus line_set).     (* ([^\n]+) *)
Definition under_or_space : regex :=                            (* [_ ] *)
  RSet (CUnion (CChar (chr "_")) (CChar (chr " "))).
(** The numeral "\d+\.?\d*". *)
Definition num_re : regex := re_seq [RPlus CDigit; ROpt dot_set; RStar CDigit].

(** The pattern "product[_ ]name[:\s]+([^\n]+)". *)
Definition name_re : regex :=
  re_seq [re_str "product"; under_or_space; re_str "name"; label_sep;
          rest_of_line].
(** The pattern "brand[:\s]+([^\n]+)". *)
Definition brand_re : regex := re_seq [re_str "brand"; label_sep; rest_of_line].
(** The pattern "price[:\s]+(NUM)" with NUM the numeral "\d+\.?\d*". *)
Definition price_re : regex :=
  re_seq [re_str "price"; label_sep; RGroup num_re].
(** The pattern "unit[:\s]+([^\n]+)". *)
Definition unit_re : regex := re_seq [re_str "unit"; label_sep; rest_of_line].
(** The pattern "shop[_ ]name[:\s]+([^\n]+)". *)
Definition shop_re : regex :=
  re_seq [re_str "shop"; under_or_space; re_str "name"; label_sep;
          rest_of_line].

(** ** Numbers *)

(** The binary64 value nearest to [n / d] (ties to even): Python's true
    division of integers, and the value [float] gives a decimal numeral. *)
Definition true_div (n : Z) (d : positive) : float :=
  match n with
  | Z0 => 0%float
  | Zpos m => SF2Prim (SFdiv prec emax (S754_finite false m 0) (S754_finite false d 0))
  | Zneg m => SF2Prim (SFdiv prec emax (S754_finite true m 0) (S754_finite false d 0))
  end.

Section Numerals.
Variable decimal : N -> option N.

(** The longest prefix of decimal digits, as digit values. *)
Fixpoint digits (s : str) : list N * str :=
  match s with
  | x :: s' =>
      match decimal x with
      | Some v => let '(ds, r) := digits s' in (v :: ds, r)
      | None => ([], s)
      end
  | [] => ([], [])
  end.

Definition digits_value (ds : list N) : Z :=
  fold_left (fun acc v => (10 * acc + Z.of_N v)%Z) ds 0%Z.

(** [float(s)] for a numeral [s] of the form digits, or digits [.]
    digits with the fraction possibly empty: the only forms the group of
    the price pattern has. Any other string is [None] here. *)
Definition float_of_str (s : str) : option float :=
  match digits s with
  | ([], _) => None
  | (ip, []) => Some (true_div (digits_value ip) 1)
  | (ip, dot :: r) =>
      if dot =? 46 then
        match digits r with
        | (fp, []) =>
            Some (true_div (digits_value (ip ++ fp)) (Z.to_pos (10 ^ Z.of_nat (length fp))))
        | _ => None
        end
      else None
  end.
End Numerals.

(** [min(a, b)] of Python: [b] when [b < a], otherwise [a]. *)
Definition py_min (a b : float) : float := if (b <? a)%float then b else a.

(** [int(x)] on a float: truncation towards zero; infinities and NaN
    raise (here [None]). *)
Definition int_of_float (x : float) : option Z :=
  match Prim2SF x with
  | S754_zero _ => Some 0%Z
  | S754_finite s m e =>
      let a := (if (0 <=? e)%Z then Zpos m * 2 ^ e else Zpos m / 2 ^ (- e))%Z in
      Some (if s then (- a)%Z else a)
  | S754_infinity _ | S754_nan => None
  end.

(** ** Exceptions, the outside world and the effect monad *)

Record exn : Type := Exception { exn_class : string; exn_msg : str }.

(** What [json.loads] can produce. *)
Inductive pyvalue : Type :=
| VNone
| VBool (b : bool)
| VInt (z : Z)
| VFloat (f : float)
| VStr (s : str)
| VList (l : list pyvalue)
| VDict (l : list (string * pyvalue)).

(** An image: rows of pixels, each pixel a list of channel values. *)
Definition ndarray : Type := list (list (list N)).

(** The response of the vision client: [response.error.message] and the
    [description] of each entry of [response.text_annotations]. *)
Record vision_response : Type := {
  resp_error_message : str;
  resp_text_annotations : list str
}.

(** The collaborators of the agent. A call that can raise returns
    [inl e]; pydantic's coercion of a value that is not already of the
    field's type returns [None] when the value is rejected. [cv2.imread]
    returns [None] for a file it cannot decode, and can raise as well. *)
Record World : Type := {
  cv2_imread : str -> exn + option ndarray;
  cv2_cvtColor : ndarray -> exn + ndarray;
  clahe_apply : ndarray -> exn + ndarray;
  cv2_fastNlMeansDenoising : ndarray -> exn + ndarray;
  cv2_filter2D : ndarray -> list (list Z) -> exn + ndarray;
  cv2_Laplacian_var : ndarray -> exn + float;
  np_mean : ndarray -> exn + float;
  read_bytes : str -> exn + list N;
  text_detection : list N -> exn + vision_response;
  prompt_format : str -> exn + str;
  llm : str -> exn + str;
  json_loads : str -> exn + gmap string pyvalue;
  coerce_str : pyvalue -> option str;
  coerce_float : pyvalue -> option float;
  coerce_datetime : pyvalue -> option Z;
  py_decimal : N -> option N;
  now : nat -> Z
}.

(** The part of the outside world a run changes: how often the clock was
    read, the prompts sent to the language model, the images sent to the
    vision service. *)
Record state : Type := {
  clock : nat;
  llm_calls : list str;
  vision_calls : list (list N)
}.

Definition M (A : Type) : Type := state -> (exn + A) * state.

Definition ret {A} (a : A) : M A := fun st => (inr a, st).

Definition bind {A B} (m : M A) (f : A -> M B) : M B :=
  fun st =>
    match m st with
    | (inr a, st') => f a st'
    | (inl e, st') => (inl e, st')
    end.

Definition raise {A} (e : exn) : M A := fun st => (inl e, st).

(** [try: body except Exception as e: handler]. *)
Definition try_except {A} (body : M A) (handler : exn -> M A) : M A :=
  fun st =>
    match body st with
    | (inr a, st') => (inr a, st')
    | (inl e, st') => handler e st'
    end.

Definition lift {A} (r : exn + A) : M A :=
  match r with
  | inr a => ret a
  | inl e => raise e
  end.

Notation "x <- m ;; k" := (bind m (fun x => k))
  (at level 100, m at next level, right associativity).

(** The state after one more reading of the clock. *)
Definition tick (st : state) : state :=
  {| clock := S (clock st); llm_calls := llm_calls st;
     vision_calls := vision_calls st |}.

Definition datetime_now (w : World) : M Z :=
  fun st => (inr (now w (clock st)), tick st).

(** The state after [prompt] was sent to the language model. *)
Definition sent (prompt : str) (st : state) : state :=
  {| clock := clock st; llm_calls := llm_calls st ++ [prompt];
     vision_calls := vision_calls st |}.

Definition call_llm (w : World) (prompt : str) : M str :=
  fun st => (llm w prompt, sent prompt st).

Definition call_text_detection (w : World) (content : list N) : M vision_response :=
  fun st =>
    (text_detection w content,
     {| clock := clock st; llm_calls := llm_calls st;
        vision_calls := vision_calls st ++ [content] |}).

Definition ValidationError : exn := Exception "ValidationError" (lit "ProductData").
Definition ValueError (msg : str) : exn := Exception "ValueError" msg.
Definition TypeError : exn := Exception "TypeError" [].
Definition AttributeError : exn := Exception "AttributeError" [].
Definition OverflowError : exn := Exception "OverflowError" [].
Definition cv2_error : exn := Exception "cv2.error" [].

(** ** The records *)

Record ProductData : Type := {
  product_name : str;
  brand : option str;
  price : option float;
  unit_ : option str;
  shop_name : option str;
  category : option str;
  confidence_score : float;
  raw_text : str;
  processing_timestamp : Z;
  (* the entries gps_latitude, gps_longitude that process_image adds *)
  gps : option (float * float)
}.

Record ProcessingResult : Type := {
  success : bool;
  product_data : option ProductData;
  error_message : option str;
  processing_time_ms : Z;
  image_quality_score : option float
}.

Definition set_raw_text (t : str) (p : ProductData) : ProductData :=
  {| product_name := product_name p; brand := brand p; price := price p;
     unit_ := unit_ p; shop_name := shop_name p; category := category p;
     confidence_score := confidence_score p; raw_text := t;
     processing_timestamp := processing_timestamp p; gps := gps p |}.

Definition set_confidence_score (c : float) (p : ProductData) : ProductData :=
  {| product_name := product_name p; brand := brand p; price := price p;
     unit_ := unit_ p; shop_name := shop_name p; category := category p;
     confidence_score := c; raw_text := raw_text p;
     processing_timestamp := processing_timestamp p; gps := gps p |}.

Definition set_gps (g : float * float) (p : ProductData) : ProductData :=
  {| product_name := product_name p; brand := brand p; price := price p;
     unit_ := unit_ p; shop_name := shop_name p; category := category p;
     confidence_score := confidence_score p; raw_text := raw_text p;
     processing_timestamp := processing_timestamp p; gps := Some g |}.

(** *** The constructor of [ProductData], called with keyword arguments

    A [str] given to a [str] field and a [float] given to a [float] field
    are taken as they are; any other value goes through pydantic's
    coercion. A missing [product_name] or a rejected value raises
    [ValidationError]; keys that are not fields are ignored. The default
    factory of [processing_timestamp] reads the clock. *)
Section Model.
Variable w : World.

Definition as_str (v : pyvalue) : option str :=
  match v with
  | VStr s => Some s
  | _ => coerce_str w v
  end.

Definition as_float (v : pyvalue) : option float :=
  match v with
  | VFloat f => Some f
  | _ => coerce_float w v
  end.

Definition required {A} (conv : pyvalue -> option A) (o : option pyvalue)
  : option A :=
  match o with
  | Some v => conv v
  | None => None
  end.

Definition with_default {A} (conv : pyvalue -> option A) (d : A)
    (o : option pyvalue) : option A :=
  match o with
  | Some v => conv v
  | None => Some d
  end.

Definition optional {A} (conv : pyvalue -> option A) (o : option pyvalue)
  : option (option A) :=
  match o with
  | None | Some VNone => Some None
  | Some v =>
      match conv v with
      | Some a => Some (Some a)
      | None => None
      end
  end.

Definition validate_fields (kw : gmap string pyvalue) (ts : Z)
  : option ProductData :=
  n ← required as_str (kw !! "product_name");
  b ← optional as_str (kw !! "brand");
  p ← optional as_float (kw !! "price");
  u ← optional as_str (kw !! "unit");
  s ← optional as_str (kw !! "shop_name");
  c ← optional as_str (kw !! "category");
  cs ← with_default as_float 0%float (kw !! "confidence_score");
  rt ← with_default as_str [] (kw !! "raw_text");
  Some {| product_name := n; brand := b; price := p; unit_ := u;
          shop_name := s; category := c; confidence_score := cs;
          raw_text := rt; processing_timestamp := ts; gps := None |}.

Definition ProductData_init (kw : gmap string pyvalue) : M ProductData :=
  ts <- match kw !! "processing_timestamp" with
        | None => datetime_now w
        | Some v =>
            match coerce_datetime w v with
            | Some t => ret t
            | None => raise ValidationError
            end
        end ;;
  match validate_fields kw ts with
  | Some pd => ret pd
  | None => raise ValidationError
  end.

(** ** [ProductDataParser.parse] *)

Definition search (r : regex) (text : str) : option (option str) :=
  re_search (py_decimal w) true r text.

(** [m.group(1).strip()] *)
Definition group1_strip (m : option str) : M str :=
  match m with
  | Some g => ret (strip g)
  | None => raise AttributeError
  end.

(** [float(m.group(1))] *)
Definition group1_float (m : option str) : M float :=
  match m with
  | Some g =>
      match float_of_str (py_decimal w) g with
      | Some f => ret f
      | None => raise (ValueError g)
      end
  | None => raise TypeError
  end.

(** [if m: product_data[key] = value(m)] *)
Definition set_if_match (m : option (option str)) (key : string)
    (value : option str -> M pyvalue) (product_data : gmap string pyvalue)
  : M (gmap string pyvalue) :=
  match m with
  | Some g => v <- value g ;; ret (<[key := v]> product_data)
  | None => ret product_data
  end.

Definition str_value (g : option str) : M pyvalue :=
  s <- group1_strip g ;; ret (VStr s).

Definition float_value (g : option str) : M pyvalue :=
  f <- group1_float g ;; ret (VFloat f).

(** The body of the [try]. *)
Definition parse_body (text : str) : M ProductData :=
  if startswith (strip text) (lit "{") then
    data <- lift (json_loads w text) ;;
    ProductData_init data
  else
    let product_data : gmap string pyvalue := ∅ in
    product_data <- set_if_match (search name_re text) "product_name" str_value product_data ;;
    product_data <- set_if_match (search brand_re text) "brand" str_value product_data ;;
    product_data <- set_if_match (search price_re text) "price" float_value product_data ;;
    product_data <- set_if_match (search unit_re text) "unit" str_value product_data ;;
    product_data <- set_if_match (search shop_re text) "shop_name" str_value product_data ;;
    let product_data := <["raw_text" := VStr text]> product_data in
    let product_data := <["confidence_score" := VFloat 0.7]> product_data in
    ProductData_init product_data.

Definition parse (text : str) : M ProductData :=
  try_except (parse_body text)
    (fun _ =>
       ProductData_init
         (<["confidence_score" := VFloat 0.1]>
            (<["raw_text" := VStr text]>
               (<["product_name" := VStr (lit "Unknown Product")]> ∅)))).
End Model.

(** ** [DataAcquisitionAgent] *)

Definition sharpen_kernel : list (list Z) :=
  [[-1; -1; -1]; [-1; 9; -1]; [-1; -1; -1]]%Z.

Definition kw3 (name raw : str) (conf : float) : gmap string pyvalue :=
  <["confidence_score" := VFloat conf]>
    (<["raw_text" := VStr raw]> (<["product_name" := VStr name]> ∅)).

Section Agent.
Variable w : World.

(** [cv2.imread] gives [None] for a file it cannot decode; the
    [ValueError] raised for it is caught by the handler of the same
    [try], which reads the file again. That second [imread] is outside
    every [try] of the function: what it raises leaves the function. *)
Definition _preprocess_image (image_path : str) : M (option ndarray) :=
  try_except
    (image <- lift (cv2_imread w image_path) ;;
     match image with
     | None =>
         raise (ValueError (lit "Could not read image from " ++ image_path))
     | Some image =>
         gray <- lift (cv2_cvtColor w image) ;;
         enhanced <- lift (clahe_apply w gray) ;;
         denoised <- lift (cv2_fastNlMeansDenoising w enhanced) ;;
         sharpened <- lift (cv2_filter2D w denoised sharpen_kernel) ;;
         ret (Some sharpened)
     end)
    (fun _ => lift (cv2_imread w image_path)).

(** [cv2.Laplacian] raises [cv2.error] when it is given [None]. *)
Definition _assess_image_quality (image : option ndarray) : M float :=
  try_except
    (match image with
     | None => raise cv2_error
     | Some im =>
         laplacian_var <- lift (cv2_Laplacian_var w im) ;;
         let focus_score := py_min (laplacian_var / 500) 1 in
         mean_brightness <- lift (np_mean w im) ;;
         let brightness_score := (1 - abs (mean_brightness - 127) / 127)%float in
         let quality_score := (focus_score * 0.7 + brightness_score * 0.3)%float in
         ret (py_min quality_score 1)
     end)
    (fun _ => ret 0.5%float).

Definition _extract_text_with_vision_api (image_path : str) : M str :=
  try_except
    (content <- lift (read_bytes w image_path) ;;
     response <- call_text_detection w content ;;
     if str_truthy (resp_error_message response) then
       raise (Exception "Exception"
                (lit "Vision API error: " ++ resp_error_message response))
     else
       match resp_text_annotations response with
       | description :: _ => ret description
       | [] => ret []
       end)
    (fun _ => ret []).

(** [chain.invoke]: the prompt is rendered, sent to the language model,
    and the completion is given to [parse]. *)
Definition chain_invoke (ocr_text : str) : M ProductData :=
  prompt <- lift (prompt_format w ocr_text) ;;
  completion <- call_llm w prompt ;;
  parse w completion.

Definition _parse_with_llm (ocr_text : str) : M ProductData :=
  try_except
    (if negb (str_truthy (strip ocr_text)) then
       ProductData_init w (kw3 (lit "No text detected") [] 0)
     else
       result <- chain_invoke ocr_text ;;
       ret (set_raw_text ocr_text result))
    (fun _ => ProductData_init w (kw3 (lit "Parsing failed") ocr_text 0.1)).

(** [int((datetime.now() - start_time).total_seconds() * 1000)], the
    clock readings being in microseconds. *)
Definition elapsed_ms (start_time : Z) : M Z :=
  t <- datetime_now w ;;
  let processing_time := (true_div (t - start_time) 1000000 * 1000)%float in
  match int_of_float processing_time with
  | Some ms => ret ms
  | None => raise OverflowError
  end.

Definition process_image (image_path : str)
    (gps_coords : option (float * float))
    (metadata : option (gmap string pyvalue)) : M ProcessingResult :=
  start_time <- datetime_now w ;;
  try_except
    (processed_image <- _preprocess_image image_path ;;
     quality_score <- _assess_image_quality processed_image ;;
     ocr_text <- _extract_text_with_vision_api image_path ;;
     product_data <- _parse_with_llm ocr_text ;;
     let product_data :=
       if (0 <? confidence_score product_data)%float
       then set_confidence_score
              (confidence_score product_data * quality_score) product_data
       else product_data in
     let product_data :=
       match gps_coords with
       | Some g => set_gps g product_data
       | None => product_data
       end in
     ms <- elapsed_ms start_time ;;
     ret {| success := true; product_data := Some product_data;
            error_message := None; processing_time_ms := ms;
            image_quality_score := Some quality_score |})
    (fun e =>
       ms <- elapsed_ms start_time ;;
       ret {| success := false; product_data := None;
              error_message := Some (exn_msg e); processing_time_ms := ms;
              image_quality_score := None |}).
End Agent.

(** *** [validate_product_data]

    The function receives a reference to the record; it is written over
    the record as its state, so that what it leaves in the record is part
    of its result. *)
Definition Obj (A : Type) : Type := ProductData -> A * ProductData.

Definition getattr {A} (f : ProductData -> A) : Obj A := fun o => (f o, o).

Definition obj_ret {A} (a : A) : Obj A := fun o => (a, o).

Definition obj_bind {A B} (m : Obj A) (f : A -> Obj B) : Obj B :=
  fun o => let '(a, o') := m o in f a o'.

Notation "x <~ m ;; k" := (obj_bind m (fun x => k))
  (at level 100, m at next level, right associativity).

Definition validate_product_data : Obj bool :=
  name <~ getattr product_name ;;
  if negb (str_truthy name) || bool_decide (strip name = []) then obj_ret false
  else
    conf <~ getattr confidence_score ;;
    if (conf <? 0.3)%float then obj_ret false
    else
      p <~ getattr price ;;
      match p with
      | Some x =>
          if (x <? 1)%float || (100000 <? x)%float then obj_ret false
          else obj_ret true
      | None => obj_ret true
      end.

(** ** Worlds for the examples *)

(** The decimal digits of ASCII; every Unicode digit table agrees with it
    below 128. *)
Definition ascii_decimal (x : N) : option N :=
  if (48 <=? x) && (x <=? 57) then Some (x - 48) else None.

Definition decimal_ascii_ok (dec : N -> option N) : Prop :=
  forall x, x < 128 -> dec x = ascii_decimal x.

Definition JSONDecodeError : exn := Exception "JSONDecodeError" [].

(** A world for running the agent on examples: [imread] gives [image]
    for every path, the enhancement steps return their input, OpenCV and
    numpy report the Laplacian variance [lap] and the mean intensity
    [mean], the vision service returns the annotations [ocr], the language
    model answers [completion] to every prompt. The JSON decoder of this
    world rejects its input: the examples only give it text that is not
    JSON. The clock advances by one millisecond per reading. *)
Definition test_world (image : option ndarray) (lap mean : float)
    (ocr : list str) (completion : exn + str) : World :=
  {| cv2_imread := fun _ => inr image;
     cv2_cvtColor := inr;
     clahe_apply := inr;
     cv2_fastNlMeansDenoising := inr;
     cv2_filter2D := fun im _ => inr im;
     cv2_Laplacian_var := fun _ => inr lap;
     np_mean := fun _ => inr mean;
     read_bytes := fun _ => inr [];
     text_detection := fun _ =>
       inr {| resp_error_message := []; resp_text_annotations := ocr |};
     prompt_format := inr;
     llm := fun _ => completion;
     json_loads := fun _ => inl JSONDecodeError;
     coerce_str := fun _ => None;
     coerce_float := fun _ => None;
     coerce_datetime := fun _ => None;
     py_decimal := ascii_decimal;
     now := fun n => (1000 * Z.of_nat n)%Z |}.

Definition st0 : state := {| clock := 0; llm_calls := []; vision_calls := [] |}.

(** A frame that is white everywhere: no edges, mean intensity 255. *)
Definition white_frame : ndarray := [[[255]; [255]]; [[255]; [255]]].

(** ** Specification-level notions used by the properties *)

Definition record3 (name raw : str) (conf : float) (ts : Z) : ProductData :=
  {| product_name := name; brand := None; price := None; unit_ := None;
     shop_name := None; category := None; confidence_score := conf;
     raw_text := raw; processing_timestamp := ts; gps := None |}.

(** What a successful run of the matcher has consumed ([str]) and what it
    leaves in group 1, as a relation. *)
Section Matches.
Variable decimal : N -> option N.
Variable icase : bool.

Inductive matches : regex -> str -> option str -> option str -> Prop :=
  | m_eps g : matches REps [] g g
  | m_set cs x g :
      cset_match decimal icase cs x = true -> matches (RSet cs) [x] g g
  | m_seq a b u v g g1 g2 :
      matches a u g g1 -> matches b v g1 g2 -> matches (RSeq a b) (u ++ v) g g2
  | m_plus cs x u g :
      forallb (cset_match decimal icase cs) (x :: u) = true ->
      matches (RPlus cs) (x :: u) g g
  | m_star cs u g :
      forallb (cset_match decimal icase cs) u = true -> matches (RStar cs) u g g
  | m_opt_some cs x g :
      cset_match decimal icase cs x = true -> matches (ROpt cs) [x] g g
  | m_opt_none cs g : matches (ROpt cs) [] g g
  | m_group r u g g1 : matches r u g g1 -> matches (RGroup r) u g (Some u).

End Matches.

(** The body of the capturing group of a pattern that has one. *)
Fixpoint the_group (r : regex) : option regex :=
  match r with
  | RGroup b => Some b
  | RSeq a b =>
      match the_group b with
      | Some x => Some x
      | None => the_group a
      end
  | _ => None
  end.


(** The fields the regular expressions find in a response: the text of
    group 1 of the leftmost match, stripped; for the price, its value. *)
Definition str_field (w : World) (r : regex) (text : str) : option str :=
  match search w r text with
  | Some (Some g) => Some (strip g)
  | _ => None
  end.

Definition price_field (w : World) (text : str) : option float :=
  match search w price_re text with
  | Some (Some g) => float_of_str (py_decimal w) g
  | _ => None
  end.

Definition put_opt (key : string) (v : option pyvalue)
    (d : gmap string pyvalue) : gmap string pyvalue :=
  match v with
  | Some x => <[key := x]> d
  | None => d
  end.

(** The record the regular-expression path builds when the product name
    was found. *)
Definition regex_record (w : World) (text : str) (name : str) (ts : Z)
  : ProductData :=
  {| product_name := name;
     brand := str_field w brand_re text;
     price := price_field w text;
     unit_ := str_field w unit_re text;
     shop_name := str_field w shop_re text;
     category := None;
     confidence_score := 0.7;
     raw_text := text;
     processing_timestamp := ts;
     gps := None |}.

(** The record of the handler of [parse]. *)
Definition unknown_product (text : str) (ts : Z) : ProductData :=
  record3 (lit "Unknown Product") text 0.1 ts.

(** The pattern matches at the head of [s]. *)
Definition match_at (w : World) (r : regex) (s : str) : option (option str) :=
  rmatch (py_decimal w) true r s None (fun _ g => Some g).

(** From position [i] the text reads [line], up to the end of the text or
    of the line. *)
Definition line_at (text : str) (i : nat) (line : str) : Prop :=
  exists rest, drop i text = line ++ rest /\ (rest = [] \/ exists r, rest = 10 :: r).

(** The pattern matches at no position before [i]. *)
Definition no_match_before (w : World) (r : regex) (text : str) (i : nat) : Prop :=
  forall j, (j < i)%nat -> match_at w r (drop j text) = None.

(** The predicate [p] fails on the first character of [s], if there is
    one: a greedy repetition of [p] stops in front of [s]. *)
Definition stops (p : N -> bool) (s : str) : Prop :=
  match s with
  | [] => True
  | x :: _ => p x = false
  end.

(** [lab] spells the label [lbl] of a pattern, up to case. *)
Definition spells (lbl lab : str) : Prop :=
  Forall2 (fun c x => lit_match true c x = true) lbl lab.

(** A label is followed by [sep], one or more colons and white space,
    and by [value], the rest of the line. *)
Definition sep_value (dec : N -> option N) (sep value rest : str) : Prop :=
  sep <> [] /\ forallb (cset_match dec true sep_set) sep = true
  /\ value <> [] /\ forallb (cset_match dec true line_set) value = true
  /\ stops (cset_match dec true sep_set) value
  /\ stops (cset_match dec true line_set) rest.

(** The ways the structured extraction fails on the text [ocr_text],
    each with the product name of the record it leaves: the rendering of
    the prompt or the call of the language model raises, or the parser
    fails on the completion. *)
Inductive extraction_failure (w : World) (ocr_text : str) (st : state)
  : str -> Prop :=
| prompt_raises e :
    prompt_format w ocr_text = inl e ->
    extraction_failure w ocr_text st (lit "Parsing failed")
| service_raises prompt e :
    prompt_format w ocr_text = inr prompt ->
    llm w prompt = inl e ->
    extraction_failure w ocr_text st (lit "Parsing failed")
| parser_raises prompt completion e st1 :
    prompt_format w ocr_text = inr prompt ->
    llm w prompt = inr completion ->
    parse_body w completion (sent prompt st) = (inl e, st1) ->
    extraction_failure w ocr_text st (lit "Unknown Product").

(** A price outside the interval [1, 100000]: one that is not in it. *)
Definition outside_range (x : float) : bool :=
  negb ((1 <=? x)%float && (x <=? 100000)%float).

(** A float that is a number: it equals itself. *)
Definition is_number (x : float) : bool := (x =? x)%float.

(** A record the validator is to reject, in the words of the
    specification: an empty product name, a confidence below 0.3, or a
    price that is given and lies outside [1, 100000]. *)
Definition rejected (pd : ProductData) : Prop :=
  product_name pd = []
  \/ (confidence_score pd <? 0.3)%float = true
  \/ exists x, price pd = Some x /\ outside_range x = true.

Definition product (name : str) (conf : float) (p : option float) : ProductData :=
  {| product_name := name; brand := None; price := p; unit_ := None;
     shop_name := None; category := None; confidence_score := conf;
     raw_text := []; processing_timestamp := 0; gps := None |}.

(** A world whose language model answers [completion]. *)
Definition answering (completion : exn + str) : World :=
  test_world None 0 0 [] completion.

(** The fallback as the specification words it: a response that is not
    well-formed JSON is parsed field by field with the regular
    expressions, and a field that is not matched stays unset. *)
Definition falls_back_to_regex (w : World) (text : str) (st : state) : Prop :=
  (exists e, json_loads w text = inl e) ->
  exists pd st',
    parse w text st = (inr pd, st')
    /\ (forall n, str_field w name_re text = Some n -> product_name pd = n)
    /\ brand pd = str_field w brand_re text
    /\ price pd = price_field w text
    /\ unit_ pd = str_field w unit_re text
    /\ shop_name pd = str_field w shop_re text.

(** The two lines of the example of the specification. *)
Definition rice_line : str := lit "Product Name: Rice 5kg".
Definition price_line : str := lit "Price: 450".

(** [line] is a line of [text] that starts at position [i]. *)
Definition is_line (text : str) (i : nat) (line : str) : Prop :=
  line_at text i line /\ (i = 0%nat \/ text !! (i - 1)%nat = Some 10).

(** The example as the specification words it: any response that is not
    JSON and contains the two lines. *)
Definition rice_claim (w : World) (text : str) (st : state) : Prop :=
  (exists e, json_loads w text = inl e) ->
  (exists i, is_line text i rice_line) ->
  (exists j, is_line text j price_line) ->
  exists pd st',
    parse w text st = (inr pd, st')
    /\ product_name pd = lit "Rice 5kg"
    /\ price pd = Some 450%float
    /\ confidence_score pd = 0.7%float.

(** The confidence of the regular-expression path as the specification
    words it: 0.7 whatever was matched. *)
Definition fixed_confidence_claim (w : World) (text : str) (st : state) : Prop :=
  startswith (strip text) (lit "{") = false ->
  exists pd st',
    parse w text st = (inr pd, st') /\ confidence_score pd = 0.7%float.

(** A photograph that cannot be decoded: [imread] gives [None], the
    vision service finds no text. *)
Definition corrupt_world : World := test_world None 0 0 [] (inr []).

(** An overexposed photograph: the frame is white, the vision service
    reads a label, the language model answers with two labelled lines. *)
Definition white_world : World :=
  test_world (Some white_frame) 0 255 [lit "RICE 450"]
    (inr (rice_line ++ [10] ++ price_line)).

(** ** Notions for the remaining functions of the agent *)

(** One of the four enhancement steps of the preprocessor raises. *)
Inductive enhancement_fails (w : World) (image : ndarray) : Prop :=
| gray_fails e :
    cv2_cvtColor w image = inl e -> enhancement_fails w image
| clahe_fails gray e :
    cv2_cvtColor w image = inr gray ->
    clahe_apply w gray = inl e -> enhancement_fails w image
| denoise_fails gray enhanced e :
    cv2_cvtColor w image = inr gray ->
    clahe_apply w gray = inr enhanced ->
    cv2_fastNlMeansDenoising w enhanced = inl e -> enhancement_fails w image
| sharpen_fails gray enhanced denoised e :
    cv2_cvtColor w image = inr gray ->
    clahe_apply w gray = inr enhanced ->
    cv2_fastNlMeansDenoising w enhanced = inr denoised ->
    cv2_filter2D w denoised sharpen_kernel = inl e -> enhancement_fails w image.

(** The state after [content] was sent to the vision service. *)
Definition seen (content : list N) (st : state) : state :=
  {| clock := clock st; llm_calls := llm_calls st;
     vision_calls := vision_calls st ++ [content] |}.

(** The ways the text extraction finds nothing: the file cannot be read,
    the service raises, the service answers with an error message, or it
    answers with no annotation. The index tells whether the service was
    called, and with what. *)
Inductive ocr_failure (w : World) (image_path : str) : option (list N) -> Prop :=
| unreadable e :
    read_bytes w image_path = inl e -> ocr_failure w image_path None
| service_raised content e :
    read_bytes w image_path = inr content ->
    text_detection w content = inl e ->
    ocr_failure w image_path (Some content)
| service_error content response :
    read_bytes w image_path = inr content ->
    text_detection w content = inr response ->
    resp_error_message response <> [] ->
    ocr_failure w image_path (Some content)
| nothing_found content response :
    read_bytes w image_path = inr content ->
    text_detection w content = inr response ->
    resp_text_annotations response = [] ->
    ocr_failure w image_path (Some content).

Definition after_ocr (called : option (list N)) (st : state) : state :=
  match called with
  | Some content => seen content st
  | None => st
  end.

(** The clock readings [t0] and [t1] (microseconds) give an elapsed time
    that [int] can convert. *)
Definition elapsed_finite (t0 t1 : Z) : Prop :=
  exists ms, int_of_float (true_div (t1 - t0) 1000000 * 1000) = Some ms.

(** During a run that starts in [st] the clock is read at most three more
    times after the start before the elapsed time is taken. *)
Definition clock_in_range (w : World) (st : state) : Prop :=
  forall k, (1 <= k <= 3)%nat ->
    elapsed_finite (now w (clock st)) (now w (clock st + k)).

(** The four text fields of the regular-expression path, their patterns
    and the labels the patterns accept. *)
Inductive text_field : Type := FName | FBrand | FUnit | FShop.

Definition pattern_of (f : text_field) : regex :=
  match f with
  | FName => name_re
  | FBrand => brand_re
  | FUnit => unit_re
  | FShop => shop_re
  end.

Definition two_words (l1 l2 : string) (lab : str) : Prop :=
  exists lab1 c lab2,
    lab = lab1 ++ c :: lab2
    /\ spells (lit l1) lab1 /\ (c = chr "_" \/ c = chr " ")
    /\ spells (lit l2) lab2.

Definition label_of (f : text_field) (lab : str) : Prop :=
  match f with
  | FName => two_words "product" "name" lab
  | FBrand => spells (lit "brand") lab
  | FUnit => spells (lit "unit") lab
  | FShop => two_words "shop" "name" lab
  end.

(** The names of the fields of [ProductData] other than [product_name]. *)
Definition other_fields : list string :=
  ["brand"; "price"; "unit"; "shop_name"; "category"; "confidence_score";
   "raw_text"; "processing_timestamp"].

(** What the validator accepts. *)
Definition acceptable (pd : ProductData) : Prop :=
  forallb isspace (product_name pd) = false
  /\ (confidence_score pd <? 0.3)%float = false
  /\ match price pd with
     | Some x => (x <? 1)%float = false /\ (100000 <? x)%float = false
     | None => True
     end.

(** A world in which the contrast enhancement raises. *)
Definition clahe_failing_world : World :=
  {| cv2_imread := fun _ => inr (Some white_frame);
     cv2_cvtColor := inr;
     clahe_apply := fun _ => inl cv2_error;
     cv2_fastNlMeansDenoising := inr;
     cv2_filter2D := fun im _ => inr im;
     cv2_Laplacian_var := fun _ => inr 0%float;
     np_mean := fun _ => inr 255%float;
     read_bytes := fun _ => inl (Exception "FileNotFoundError" []);
     text_detection := fun _ =>
       inr {| resp_error_message := []; resp_text_annotations := [] |};
     prompt_format := inr;
     llm := fun _ => inr [];
     json_loads := fun _ => inl JSONDecodeError;
     coerce_str := fun _ => None;
     coerce_float := fun _ => None;
     coerce_datetime := fun _ => None;
     py_decimal := ascii_decimal;
     now := fun n => (1000 * Z.of_nat n)%Z |}.

(** The test world whose JSON decoder gives the object [data]. *)
Definition json_world (data : gmap string pyvalue) : World :=
  {| cv2_imread := fun _ => inr None;
     cv2_cvtColor := inr;
     clahe_apply := inr;
     cv2_fastNlMeansDenoising := inr;
     cv2_filter2D := fun im _ => inr im;
     cv2_Laplacian_var := fun _ => inr 0%float;
     np_mean := fun _ => inr 0%float;
     read_bytes := fun _ => inr [];
     text_detection := fun _ =>
       inr {| resp_error_message := []; resp_text_annotations := [] |};
     prompt_format := inr;
     llm := fun _ => inr [];
     json_loads := fun _ => inr data;
     coerce_str := fun _ => None;
     coerce_float := fun _ => None;
     coerce_datetime := fun _ => None;
     py_decimal := ascii_decimal;
     now := fun n => (1000 * Z.of_nat n)%Z |}.

(** Two JSON texts for the examples: an object with a brand only, and an
    object with a product name and a key that is not a field. *)
Definition quoted (s : string) : str := [34] ++ lit s ++ [34].

Definition brand_only_json : str :=
  lit "{" ++ quoted "brand" ++ lit ": " ++ quoted "Anchor" ++ lit "}".

Definition brand_only : gmap string pyvalue := {["brand" := VStr (lit "Anchor")]}.

Definition name_and_note_json : str :=
  lit "{" ++ quoted "product_name" ++ lit ": " ++ quoted "Milk" ++ lit ", "
  ++ quoted "note" ++ lit ": true}".

Definition name_and_note : gmap string pyvalue :=
  <["note" := VBool true]> {["product_name" := VStr (lit "Milk")]}.

(** A JSON object whose price is the literal NaN, which [json.loads]
    reads as the float that is not a number. *)
Definition nan_price_json : str :=
  lit "{" ++ quoted "product_name" ++ lit ": " ++ quoted "Tea" ++ lit ", "
  ++ quoted "price" ++ lit ": NaN, " ++ quoted "confidence_score" ++ lit ": 0.5}".

Definition nan_price_object : gmap string pyvalue :=
  <["confidence_score" := VFloat 0.5]>
    (<["price" := VFloat nan]> {["product_name" := VStr (lit "Tea")]}).

(** ** The settings ([backend/shared/config.py]) and the choice of the
    database engine ([backend/shared/database.py]) *)

(** [s.split(sep)] for a separator of one character. *)
Fixpoint split_on (sep : N) (s : str) : list str :=
  match s with
  | [] => [[]]
  | x :: s' =>
      if x =? sep then [] :: split_on sep s'
      else
        match split_on sep s' with
        | piece :: pieces => (x :: piece) :: pieces
        | [] => [[x]]
        end
  end.

Definition comma : N := 44.

(** [Settings.assemble_cors_origins] (and [assemble_allowed_hosts], which
    has the same body): a string is cut at the commas and each piece is
    stripped; any other value is returned as it is. *)
Definition assemble_cors_origins (v : pyvalue) : pyvalue :=
  match v with
  | VStr s => VList (map (fun i => VStr (strip i)) (split_on comma s))
  | _ => v
  end.

Definition assemble_allowed_hosts (v : pyvalue) : pyvalue :=
  match v with
  | VStr s => VList (map (fun i => VStr (strip i)) (split_on comma s))
  | _ => v
  end.

(** [",".join(l)] *)
Fixpoint join_comma (l : list str) : str :=
  match l with
  | [] => []
  | [i] => i
  | i :: rest => i ++ comma :: join_comma rest
  end.

Definition validate_secret_key (v : str) : exn + str :=
  if (length v <? 32)%nat
  then inl (ValueError (lit "SECRET_KEY must be at least 32 characters long"))
  else inr v.




(** ** The upload endpoints ([backend/agents/data_acquisition/router.py]) *)

(** The settings the router reads. *)
Record Settings : Type := {
  MAX_FILE_SIZE : Z;
  UPLOAD_DIR : str;
  ALLOWED_EXTENSIONS : list str
}.

(** The values [config.py] gives them when the environment sets none. *)
Definition default_settings : Settings :=
  {| MAX_FILE_SIZE := 50 * 1024 * 1024;
     UPLOAD_DIR := lit "uploads";
     ALLOWED_EXTENSIONS :=
       [lit ".jpg"; lit ".jpeg"; lit ".png"; lit ".gif"; lit ".webp"] |}.

(** An uploaded file: its declared content type and file name (either may
    be missing) and what reading it gives. *)
Record UploadFile : Type := {
  content_type : option str;
  filename : option str;
  file_body : exn + list N
}.

(** What the router uses of the standard library and of the file system. *)
Record Host : Type := {
  path_suffix : str -> str;                 (* Path(name).suffix *)
  str_lower : str -> str;                   (* str.lower *)
  upload_path : str -> list str -> str;     (* str(Path(dir) / a / b) *)
  mkdir_parent : str -> exn + unit;         (* path.parent.mkdir(...) *)
  write_bytes : str -> list N -> exn + unit;
  uuid4 : nat -> str;
  isoformat : Z -> str
}.

(** The task given to [background_tasks]: the arguments of
    [save_processed_data]. *)
Record save_task : Type := {
  task_product : ProductData;
  task_path : str;
  task_gps : option (float * float);
  task_scout : option str
}.

(** The state of the server around the agent: the identifiers drawn, the
    files written, the tasks scheduled. *)
Record rstate : Type := {
  agent_state : state;
  uuids : nat;
  files : list (str * list N);
  tasks : list save_task
}.

(** An [HTTPException], or any other exception. *)
Inductive rexn : Type :=
| HTTPException (status_code : Z) (detail : str)
| Raised (e : exn).

Definition R (A : Type) : Type := rstate -> (rexn + A) * rstate.

Definition rret {A} (a : A) : R A := fun st => (inr a, st).

Definition rbind {A B} (m : R A) (f : A -> R B) : R B :=
  fun st =>
    match m st with
    | (inr a, st') => f a st'
    | (inl e, st') => (inl e, st')
    end.

Definition rraise {A} (e : rexn) : R A := fun st => (inl e, st).

Notation "x <<- m ;; k" := (rbind m (fun x => k))
  (at level 100, m at next level, right associativity).

(** A call that may raise and changes nothing here. *)
Definition rlift {A} (r : exn + A) : R A :=
  match r with
  | inr a => rret a
  | inl e => rraise (Raised e)
  end.

(** A computation of the agent, run on the state of the agent. *)
Definition agent {A} (m : M A) : R A :=
  fun st =>
    let '(r, s') := m (agent_state st) in
    (match r with inr a => inr a | inl e => inl (Raised e) end,
     {| agent_state := s'; uuids := uuids st; files := files st;
        tasks := tasks st |}).

Definition next_uuid (h : Host) : R str :=
  fun st =>
    (inr (uuid4 h (uuids st)),
     {| agent_state := agent_state st; uuids := S (uuids st);
        files := files st; tasks := tasks st |}).

Definition save_file (h : Host) (path : str) (contents : list N) : R unit :=
  fun st =>
    match write_bytes h path contents with
    | inr _ =>
        (inr tt,
         {| agent_state := agent_state st; uuids := uuids st;
            files := files st ++ [(path, contents)]; tasks := tasks st |})
    | inl e => (inl (Raised e), st)
    end.

Definition add_task (t : save_task) : R unit :=
  fun st =>
    (inr tt,
     {| agent_state := agent_state st; uuids := uuids st; files := files st;
        tasks := tasks st ++ [t] |}).

(** [str(n)] for an integer. *)
Definition str_of_Z (n : Z) : str := lit (NilZero.string_of_int (Z.to_int n)).

Definition opt_str (o : option str) : pyvalue :=
  match o with
  | Some s => VStr s
  | None => VNone
  end.

(** What [Path(None)] raises. *)
Definition path_type_error : exn :=
  Exception "TypeError"
    (lit "expected str, bytes or os.PathLike object, not NoneType").

(** What the attribute access [None.startswith] raises. *)
Definition no_startswith : exn :=
  Exception "AttributeError"
    (lit "'NoneType' object has no attribute 'startswith'").

Definition internal_error : rexn :=
  HTTPException 500 (lit "Internal server error processing image").

Section Router.
Variable w : World.
Variable h : Host.
Variable settings : Settings.

(** The body of the [try] of [process_scout_image]. *)
Definition process_scout_image_body (image : UploadFile)
    (gps_latitude gps_longitude : option float)
    (scout_id shop_name : option str) : R ProcessingResult :=
  ct <<- match content_type image with
         | Some ct => rret ct
         | None => rraise (Raised no_startswith)
         end ;;
  if negb (startswith ct (lit "image/")) then
    rraise (HTTPException 400 (lit "File must be an image"))
  else
    contents <<- rlift (file_body image) ;;
    if (MAX_FILE_SIZE settings <? Z.of_nat (length contents))%Z then
      rraise (HTTPException 400
                (lit "File size exceeds maximum limit of "
                 ++ str_of_Z (MAX_FILE_SIZE settings) ++ lit " bytes"))
    else
      name <<- match filename image with
               | Some name => rret name
               | None => rraise (Raised path_type_error)
               end ;;
      let file_extension := path_suffix h name in
      if negb (bool_decide
                 (str_lower h file_extension ∈ ALLOWED_EXTENSIONS settings))
      then
        rraise (HTTPException 400
                  (lit "File extension " ++ file_extension ++ lit " not allowed"))
      else
        u <<- next_uuid h ;;
        let unique_filename := u ++ file_extension in
        let file_path :=
          upload_path h (UPLOAD_DIR settings) [lit "scout_images"; unique_filename] in
        _ <<- rlift (mkdir_parent h file_path) ;;
        _ <<- save_file h file_path contents ;;
        let gps_coords :=
          match gps_latitude, gps_longitude with
          | Some lat, Some lon => Some (lat, lon)
          | _, _ => None
          end in
        ts <<- agent (datetime_now w) ;;
        let metadata : gmap string pyvalue :=
          <["original_filename" := opt_str (filename image)]>
            (<["upload_timestamp" := VStr (isoformat h ts)]>
               (<["shop_name" := opt_str shop_name]>
                  (<["scout_id" := opt_str scout_id]> ∅))) in
        result <<- agent (process_image w file_path gps_coords (Some metadata)) ;;
        _ <<- match product_data result with
              | Some pd =>
                  if success result then
                    add_task {| task_product := pd; task_path := file_path;
                                task_gps := gps_coords; task_scout := scout_id |}
                  else rret tt
              | None => rret tt
              end ;;
        rret result.

(** [except HTTPException: raise] and [except Exception: raise
    HTTPException(500, ...)]. *)
Definition process_scout_image (image : UploadFile)
    (gps_latitude gps_longitude : option float)
    (scout_id shop_name : option str) : R ProcessingResult :=
  fun st =>
    match process_scout_image_body image gps_latitude gps_longitude
            scout_id shop_name st with
    | (inr result, st') => (inr result, st')
    | (inl (HTTPException code detail), st') => (inl (HTTPException code detail), st')
    | (inl (Raised _), st') => (inl internal_error, st')
    end.

(** An entry of the result of the batch endpoint: the file name, and the
    result of the agent or the text of the exception. *)
Record batch_entry : Type := {
  entry_filename : option str;
  entry_outcome : str + ProcessingResult
}.

Definition rexn_str (e : rexn) : str :=
  match e with
  | HTTPException _ detail => detail
  | Raised e => exn_msg e
  end.

(** One turn of the loop of [batch_process_images]. *)
Definition batch_one (image : UploadFile) : R batch_entry :=
  fun st =>
    match (contents <<- rlift (file_body image) ;;
           name <<- match filename image with
                    | Some name => rret name
                    | None => rraise (Raised path_type_error)
                    end ;;
           let file_extension := path_suffix h name in
           u <<- next_uuid h ;;
           let unique_filename := u ++ file_extension in
           let file_path :=
             upload_path h (UPLOAD_DIR settings)
               [lit "scout_images"; lit "batch"; unique_filename] in
           _ <<- rlift (mkdir_parent h file_path) ;;
           _ <<- save_file h file_path contents ;;
           result <<- agent (process_image w file_path None None) ;;
           rret {| entry_filename := filename image;
                   entry_outcome := inr result |}) st with
    | (inr entry, st') => (inr entry, st')
    | (inl e, st') =>
        (inr {| entry_filename := filename image;
                entry_outcome := inl (rexn_str e) |}, st')
    end.

Fixpoint batch_loop (images : list UploadFile) (results : list batch_entry)
  : R (list batch_entry) :=
  match images with
  | [] => rret results
  | image :: rest =>
      entry <<- batch_one image ;;
      batch_loop rest (results ++ [entry])
  end.

Definition batch_process_images (images : list UploadFile)
    (scout_id : option str) : R (list batch_entry) :=
  if (10 <? length images)%nat then
    rraise (HTTPException 400 (lit "Maximum 10 images per batch"))
  else batch_loop images [].
End Router.

(** The reasons for which [process_scout_image] refuses an upload, each
    with the detail of its answer. *)
Inductive upload_refused (h : Host) (settings : Settings) (image : UploadFile)
  : str -> Prop :=
| not_an_image ct :
    content_type image = Some ct ->
    startswith ct (lit "image/") = false ->
    upload_refused h settings image (lit "File must be an image")
| too_large ct contents :
    content_type image = Some ct ->
    startswith ct (lit "image/") = true ->
    file_body image = inr contents ->
    (MAX_FILE_SIZE settings < Z.of_nat (length contents))%Z ->
    upload_refused h settings image
      (lit "File size exceeds maximum limit of "
       ++ str_of_Z (MAX_FILE_SIZE settings) ++ lit " bytes")
| bad_extension ct contents name :
    content_type image = Some ct ->
    startswith ct (lit "image/") = true ->
    file_body image = inr contents ->
    (Z.of_nat (length contents) <= MAX_FILE_SIZE settings)%Z ->
    filename image = Some name ->
    str_lower h (path_suffix h name) ∉ ALLOWED_EXTENSIONS settings ->
    upload_refused h settings image
      (lit "File extension " ++ path_suffix h name ++ lit " not allowed").

(** A host for the examples: the suffix is that of [pathlib] for a POSIX
    path, lower case is that of ASCII, paths are joined with slashes, the
    file system accepts everything. *)

(** The part of [s] from its last dot on. *)
Fixpoint after_last_dot (s : str) : option str :=
  match s with
  | [] => None
  | x :: s' =>
      match after_last_dot s' with
      | Some t => Some t
      | None => if x =? 46 then Some s else None
      end
  end.

(** [Path(s).name]: the last component of the path, the empty components
    and those that are a single dot apart. *)
Definition path_name (s : str) : str :=
  default []
    (last (filter (fun piece =>
                     negb (bool_decide (piece = []) || bool_decide (piece = [46])))
             (split_on 47 s))).

(** [Path(s).suffix]: the name from its last dot on, when that dot is
    neither the first nor the last character of the name. *)
Definition pathlib_suffix (s : str) : str :=
  let name := path_name s in
  match after_last_dot name with
  | Some t =>
      if (1 <? length t)%nat && (length t <? length name)%nat then t else []
  | None => []
  end.

Definition ascii_lower (x : N) : N :=
  if (65 <=? x) && (x <=? 90) then x + 32 else x.

Definition test_host : Host :=
  {| path_suffix := pathlib_suffix;
     str_lower := map ascii_lower;
     upload_path := fun dir parts =>
       fold_left (fun p part => p ++ [47] ++ part) parts dir;
     mkdir_parent := fun _ => inr tt;
     write_bytes := fun _ _ => inr tt;
     uuid4 := fun n => lit "uuid-" ++ str_of_Z (Z.of_nat n);
     isoformat := str_of_Z |}.

Definition rst0 : rstate :=
  {| agent_state := st0; uuids := 0; files := []; tasks := [] |}.

Definition upload (ct name : string) (contents : list N) : UploadFile :=
  {| content_type := Some (lit ct); filename := Some (lit name);
     file_body := inr contents |}.

(** The path [process_scout_image] stores an upload under, the GPS pair
    it gives the agent, and the task it schedules for a result. *)
Definition stored_path (h : Host) (settings : Settings) (n : nat) (name : str) : str :=
  upload_path h (UPLOAD_DIR settings)
    [lit "scout_images"; uuid4 h n ++ path_suffix h name].

Definition both (lat lon : option float) : option (float * float) :=
  match lat, lon with
  | Some a, Some b => Some (a, b)
  | _, _ => None
  end.

Definition scheduled (r : ProcessingResult) (path : str)
    (gps_coords : option (float * float)) (scout : option str) : list save_task :=
  match product_data r with
  | Some pd =>
      if success r then
        [{| task_product := pd; task_path := path; task_gps := gps_coords;
            task_scout := scout |}]
      else []
  | None => []
  end.

(** The path [batch_process_images] stores an upload under. *)
Definition batch_path (h : Host) (settings : Settings) (n : nat) (name : str) : str :=
  upload_path h (UPLOAD_DIR settings)
    [lit "scout_images"; lit "batch"; uuid4 h n ++ path_suffix h name].

(** A world in which [imread] itself raises. *)
Definition imread_error : exn :=
  Exception "cv2.error" (lit "Failed to allocate memory for the image").

Definition imread_raising_world : World :=
  {| cv2_imread := fun _ => inl imread_error;
     cv2_cvtColor := inr;
     clahe_apply := inr;
     cv2_fastNlMeansDenoising := inr;
     cv2_filter2D := fun im _ => inr im;
     cv2_Laplacian_var := fun _ => inr 0%float;
     np_mean := fun _ => inr 255%float;
     read_bytes := fun _ => inr [];
     text_detection := fun _ =>
       inr {| resp_error_message := []; resp_text_annotations := [lit "TEA 300"] |};
     prompt_format := inr;
     llm := fun _ => inr (lit "Product Name: Tea");
     json_loads := fun _ => inl JSONDecodeError;
     coerce_str := fun _ => None;
     coerce_float := fun _ => None;
     coerce_datetime := fun _ => None;
     py_decimal := ascii_decimal;
     now := fun n => (1000 * Z.of_nat n)%Z |}.

(** * Properties *)

(** ** Strings *)

Lemma lstrip_spaces (s : str) : forallb isspace s = true -> lstrip s = [].
Proof.
  induction s as [|x s IH]; simpl; [reflexivity|].
  intros H. apply andb_true_iff in H as [Hx Hs]. rewrite Hx. auto.
Qed.

Lemma lstrip_nil_spaces (s : str) : lstrip s = [] -> forallb isspace s = true.
Proof.
  induction s as [|x s IH]; simpl; [reflexivity|].
  destruct (isspace x); [auto | discriminate].
Qed.

Lemma strip_spaces (s : str) : forallb isspace s = true -> strip s = [].
Proof.
  intros H. unfold strip, rstrip. rewrite (lstrip_spaces s H). reflexivity.
Qed.

(** [strip] leaves nothing exactly when the text is white space only. *)
Lemma strip_nil_iff (s : str) : strip s = [] <-> forallb isspace s = true.
Proof.
  split; [|apply strip_spaces].
  unfold strip, rstrip. intros H.
  apply (f_equal (@rev N)) in H. rewrite rev_involutive in H. simpl in H.
  destruct (lstrip s) as [|x t] eqn:E; [apply lstrip_nil_spaces; exact E|].
  exfalso. apply lstrip_nil_spaces in H.
  rewrite forallb_forall in H.
  assert (Hx : isspace x = true).
  { apply H. apply in_rev. rewrite rev_involutive. left. reflexivity. }
  clear H. revert E Hx. induction s as [|y s IH]; simpl; [discriminate|].
  destruct (isspace y) eqn:Ey; [exact IH|].
  intros [= -> _] Hx. congruence.
Qed.

Lemma str_truthy_false (s : str) : str_truthy s = false <-> s = [].
Proof. destruct s; simpl; split; congruence. Qed.

(** ** The matcher

    What a successful run of the backtracking matcher has consumed, and
    what it leaves in group 1. *)

Section MatcherFacts.
Variable decimal : N -> option N.
Variable icase : bool.

Lemma greedy_sound {R} (p : N -> bool) (k : str -> option R) (s : str) (x : R) :
    greedy p k s = Some x ->
    exists u s', s = u ++ s' /\ forallb p u = true /\ k s' = Some x.
  Proof.
    induction s as [|c s IH]; simpl.
    - intros H. exists [], []. auto.
    - destruct (p c) eqn:Hc.
      + destruct (greedy p k s) as [y|] eqn:Hg.
        * intros [= ->]. destruct (IH eq_refl) as (u & s' & -> & Hu & Hk).
          exists (c :: u), s'. simpl. rewrite Hc, Hu. auto.
        * intros H. exists [], (c :: s). auto.
      + intros H. exists [], (c :: s). auto.
  Qed.

Lemma take_consumed (u s' : str) :
    take (length (u ++ s') - length s') (u ++ s') = u.
  Proof.
    rewrite length_app.
    replace (length u + length s' - length s')%nat with (length u) by lia.
    apply take_app_length.
  Qed.

Lemma rmatch_sound {R} (r : regex) :
    forall (s : str) (g : option str) (k : str -> option str -> option R) (x : R),
      rmatch decimal icase r s g k = Some x ->
      exists u s' g', s = u ++ s' /\ matches decimal icase r u g g' /\ k s' g' = Some x.
  Proof.
    induction r as [|cs|a IHa b IHb|cs|cs|cs|r IH]; intros s g k x; simpl.
    - intros H. exists [], s, g. split; [reflexivity|]. split; [constructor | exact H].
    - destruct s as [|c s]; [discriminate|].
      destruct (cset_match decimal icase cs c) eqn:Hc; [|discriminate].
      intros H. exists [c], s, g. split; [reflexivity|].
      split; [constructor; exact Hc | exact H].
    - intros H. apply IHa in H as (u & s1 & g1 & -> & Hu & H).
      apply IHb in H as (v & s2 & g2 & -> & Hv & H).
      exists (u ++ v), s2, g2. rewrite <- app_assoc. split; [reflexivity|].
      split; [econstructor; eassumption | exact H].
    - destruct s as [|c s]; [discriminate|].
      destruct (cset_match decimal icase cs c) eqn:Hc; [|discriminate].
      intros H. apply greedy_sound in H as (u & s' & -> & Hu & H).
      exists (c :: u), s', g. split; [reflexivity|].
      split; [constructor; simpl; rewrite Hc; exact Hu | exact H].
    - intros H. apply greedy_sound in H as (u & s' & -> & Hu & H).
      exists u, s', g. split; [reflexivity|].
      split; [constructor; exact Hu | exact H].
    - destruct s as [|c s].
      + intros H. exists [], [], g. split; [reflexivity|].
        split; [constructor | exact H].
      + destruct (cset_match decimal icase cs c) eqn:Hc.
        * destruct (k s g) as [y|] eqn:Hk.
          -- intros [= ->]. exists [c], s, g. split; [reflexivity|].
             split; [constructor; exact Hc | exact Hk].
          -- intros H. exists [], (c :: s), g. split; [reflexivity|].
             split; [constructor | exact H].
        * intros H. exists [], (c :: s), g. split; [reflexivity|].
          split; [constructor | exact H].
    - intros H. apply IH in H as (u & s' & g1 & -> & Hu & H).
      rewrite take_consumed in H.
      exists u, s', (Some u). split; [reflexivity|].
      split; [econstructor; exact Hu | exact H].
  Qed.

Lemma re_search_sound (r : regex) (s : str) (g : option str) :
    re_search decimal icase r s = Some g ->
    exists pre u s', s = pre ++ u ++ s' /\ matches decimal icase r u None g.
  Proof.
    induction s as [|c s IH]; simpl.
    - destruct (rmatch decimal icase r [] None (fun _ g0 => Some g0)) as [y|] eqn:H;
        [|discriminate].
      intros [= ->]. apply rmatch_sound in H as (u & s' & g' & E & Hu & [= ->]).
      exists [], u, s'. auto.
    - destruct (rmatch decimal icase r (c :: s) None (fun _ g0 => Some g0)) as [y|] eqn:H.
      + intros [= ->]. apply rmatch_sound in H as (u & s' & g' & E & Hu & [= ->]).
        exists [], u, s'. auto.
      + intros H'. apply IH in H' as (pre & u & s' & -> & Hu).
        exists (c :: pre), u, s'. auto.
  Qed.

Lemma matches_group (r : regex) (u : str) (g g' : option str) :
    matches decimal icase r u g g' ->
    match the_group r with
    | Some b => exists t gi go, g' = Some t /\ matches decimal icase b t gi go
    | None => g' = g
    end.
  Proof.
    induction 1 as [| | a b u v g g1 g2 Ha IHa Hb IHb | | | | | r u g g1 H IH];
      simpl; try reflexivity.
    - destruct (the_group b) as [x|]; [exact IHb|].
      subst g2. exact IHa.
    - exists u, g, g1. auto.
  Qed.

Lemma re_search_group (r b : regex) (s : str) (g : option str) :
    the_group r = Some b ->
    re_search decimal icase r s = Some g ->
    exists t gi go, g = Some t /\ matches decimal icase b t gi go.
  Proof.
    intros Hb H. apply re_search_sound in H as (pre & u & s' & _ & Hu).
    apply matches_group in Hu. rewrite Hb in Hu. exact Hu.
  Qed.

(** *** Matches that succeed at the first attempt *)

Lemma greedy_max {R} (p : N -> bool) (k : str -> option R) (u s' : str) (y : R) :
  forallb p u = true -> stops p s' -> k s' = Some y ->
  greedy p k (u ++ s') = Some y.
Proof.
  intros Hu Hs Hk. induction u as [|c u IH]; simpl.
  - destruct s' as [|x s']; simpl; [exact Hk|].
    simpl in Hs. rewrite Hs. exact Hk.
  - simpl in Hu. apply andb_true_iff in Hu as [Hc Hu].
    rewrite Hc, (IH Hu). reflexivity.
Qed.

Lemma rmatch_plus_max {R} (cs : cset) (u s' : str) (g : option str)
    (k : str -> option str -> option R) (y : R) :
  u <> [] -> forallb (cset_match decimal icase cs) u = true ->
  stops (cset_match decimal icase cs) s' -> k s' g = Some y ->
  rmatch decimal icase (RPlus cs) (u ++ s') g k = Some y.
Proof.
  intros Hne Hu Hs Hk. destruct u as [|c u]; [congruence|].
  simpl in *. apply andb_true_iff in Hu as [Hc Hu]. rewrite Hc.
  apply greedy_max; assumption.
Qed.

Lemma rmatch_lits {R} (l u s : str) (g : option str)
    (k : str -> option str -> option R) :
  Forall2 (fun c x => lit_match icase c x = true) l u ->
  rmatch decimal icase (foldr (fun c r => RSeq (RSet (CChar c)) r) REps l)
    (u ++ s) g k = k s g.
Proof.
  induction 1 as [|c x l u Hcx _ IH]; simpl; [reflexivity|].
  rewrite Hcx. exact IH.
Qed.

(** The separator and the value of a text field: the value is what
    follows the separator, to the end of the line. *)
Lemma rmatch_sep_value (sep value rest : str) (g : option str) :
  sep <> [] -> forallb (cset_match decimal icase sep_set) sep = true ->
  value <> [] -> forallb (cset_match decimal icase line_set) value = true ->
  stops (cset_match decimal icase sep_set) value ->
  stops (cset_match decimal icase line_set) rest ->
  rmatch decimal icase (RSeq label_sep (RSeq rest_of_line REps))
    (sep ++ value ++ rest) g (fun _ g' => Some g')
  = Some (Some value).
Proof.
  intros Hs1 Hs2 Hv1 Hv2 Hstop1 Hstop2.
  change (rmatch decimal icase (RSeq label_sep (RSeq rest_of_line REps))
            (sep ++ value ++ rest) g (fun _ g' => Some g'))
    with (rmatch decimal icase (RPlus sep_set) (sep ++ value ++ rest) g
            (fun s' g' =>
               rmatch decimal icase (RPlus line_set) s' g'
                 (fun s'' _ => Some (Some (take (length s' - length s'') s'))))).
  apply rmatch_plus_max; try assumption.
  - destruct value; [congruence|]. exact Hstop1.
  - apply rmatch_plus_max; try assumption.
    rewrite take_consumed. reflexivity.
Qed.

(** The separator and the numeral of the price. *)
Lemma rmatch_sep_number (sep d1 rest : str) (g : option str) :
  sep <> [] -> forallb (cset_match decimal icase sep_set) sep = true ->
  d1 <> [] -> forallb (cset_match decimal icase CDigit) d1 = true ->
  stops (cset_match decimal icase sep_set) d1 ->
  stops (cset_match decimal icase CDigit) rest ->
  stops (cset_match decimal icase dot_set) rest ->
  rmatch decimal icase (RSeq label_sep (RSeq (RGroup num_re) REps))
    (sep ++ d1 ++ rest) g (fun _ g' => Some g')
  = Some (Some d1).
Proof.
  intros Hs1 Hs2 Hd1 Hd2 Hstop1 Hstop2 Hstop3.
  change (rmatch decimal icase (RSeq label_sep (RSeq (RGroup num_re) REps))
            (sep ++ d1 ++ rest) g (fun _ g' => Some g'))
    with (rmatch decimal icase (RPlus sep_set) (sep ++ d1 ++ rest) g
            (fun s' g' =>
               rmatch decimal icase num_re s' g'
                 (fun s'' _ => Some (Some (take (length s' - length s'') s'))))).
  apply rmatch_plus_max; try assumption.
  - destruct d1; [congruence|]. exact Hstop1.
  - unfold num_re, re_seq. simpl foldr.
    change (rmatch decimal icase
              (RSeq (RPlus CDigit) (RSeq (ROpt dot_set) (RSeq (RStar CDigit) REps)))
              (d1 ++ rest) g
              (fun s'' _ => Some (Some (take (length (d1 ++ rest) - length s'') (d1 ++ rest)))))
      with (rmatch decimal icase (RPlus CDigit) (d1 ++ rest) g
              (fun s1 g1 =>
                 rmatch decimal icase (ROpt dot_set) s1 g1
                   (fun s2 g2 =>
                      greedy (cset_match decimal icase CDigit)
                        (fun s3 => Some (Some (take (length (d1 ++ rest) - length s3) (d1 ++ rest))))
                        s2))).
    apply rmatch_plus_max; try assumption.
    assert (Hg : greedy (cset_match decimal icase CDigit)
                   (fun s3 => Some (Some (take (length (d1 ++ rest) - length s3) (d1 ++ rest))))
                   rest = Some (Some d1)).
    { apply (greedy_max _ _ [] rest); [reflexivity | assumption |].
      rewrite take_consumed. reflexivity. }
    destruct rest as [|x rest']; simpl; [exact Hg|].
    simpl in Hstop3. simpl. rewrite Hstop3. exact Hg.
Qed.

Lemma rmatch_seq_lits {R} (l u s : str) (r2 : regex) (g : option str)
    (k : str -> option str -> option R) :
  Forall2 (fun c x => lit_match icase c x = true) l u ->
  rmatch decimal icase
    (RSeq (foldr (fun c r => RSeq (RSet (CChar c)) r) REps l) r2) (u ++ s) g k
  = rmatch decimal icase r2 s g k.
Proof. intros H. simpl. rewrite rmatch_lits by exact H. reflexivity. Qed.

Lemma rmatch_seq_set {R} (cs : cset) (x : N) (s : str) (r2 : regex)
    (g : option str) (k : str -> option str -> option R) :
  cset_match decimal icase cs x = true ->
  rmatch decimal icase (RSeq (RSet cs) r2) (x :: s) g k
  = rmatch decimal icase r2 s g k.
Proof. intros H. simpl. rewrite H. reflexivity. Qed.
End MatcherFacts.

(** ** Numerals: [float] accepts what the price pattern captures *)

Section NumeralFacts.
Variable decimal : N -> option N.
Variable icase : bool.

Lemma digits_app (u s : str) :
  forallb (cset_match decimal icase CDigit) u = true ->
  exists ds, length ds = length u /\
    digits decimal (u ++ s) = (ds ++ fst (digits decimal s), snd (digits decimal s)).
Proof.
  induction u as [|x u IH]; simpl.
  - intros _. exists []. destruct (digits decimal s). auto.
  - intros H. apply andb_true_iff in H as [Hx Hu].
    apply bool_decide_eq_true in Hx as [v Hv]. rewrite Hv.
    destruct (IH Hu) as (ds & Hlen & ->).
    exists (v :: ds). simpl. auto.
Qed.

Lemma digits_all (u : str) :
  forallb (cset_match decimal icase CDigit) u = true ->
  exists ds, length ds = length u /\ digits decimal u = (ds, []).
Proof.
  intros H. destruct (digits_app u [] H) as (ds & Hlen & E).
  rewrite app_nil_r in E. simpl in E. rewrite app_nil_r in E. eauto.
Qed.

(** A pattern character below the small letters matches itself only. *)
Lemma lit_match_exact (c x : N) : c < 97 -> lit_match icase c x = true -> x = c.
Proof.
  unfold lit_match, sre_lower. intros Hc H.
  destruct (N.eqb_spec x c) as [E|NE]; [exact E|]. exfalso.
  simpl in H. destruct icase; simpl in H; [|discriminate].
  destruct (N.eqb_spec c 105) as [->|_]; [lia|].
  destruct (N.eqb_spec c 115) as [->|_]; [lia|].
  simpl in H. rewrite !orb_false_r in H.
  destruct ((65 <=? x) && (x <=? 90)) eqn:E1.
  - apply andb_true_iff in E1 as [A B]. apply N.leb_le in A.
    apply N.eqb_eq in H. lia.
  - destruct (x =? 304); [apply N.eqb_eq in H; lia|].
    destruct (x =? 8490); [apply N.eqb_eq in H; lia|].
    apply N.eqb_eq in H. contradiction.
Qed.

Lemma lit_match_dot (x : N) : lit_match icase 46 x = true -> x = 46.
Proof. apply lit_match_exact. reflexivity. Qed.

Lemma matches_seq_inv (a b : regex) (t : str) (g g2 : option str) :
  matches decimal icase (RSeq a b) t g g2 ->
  exists u v g1, t = u ++ v /\ matches decimal icase a u g g1
                 /\ matches decimal icase b v g1 g2.
Proof. inversion 1; subst; eauto 7. Qed.

Lemma matches_eps_inv (t : str) (g g' : option str) :
  matches decimal icase REps t g g' -> t = [].
Proof. inversion 1; reflexivity. Qed.

Lemma matches_plus_inv (cs : cset) (t : str) (g g' : option str) :
  matches decimal icase (RPlus cs) t g g' ->
  t <> [] /\ forallb (cset_match decimal icase cs) t = true.
Proof. inversion 1; subst; split; [discriminate | assumption]. Qed.

Lemma matches_star_inv (cs : cset) (t : str) (g g' : option str) :
  matches decimal icase (RStar cs) t g g' ->
  forallb (cset_match decimal icase cs) t = true.
Proof. inversion 1; subst; assumption. Qed.

Lemma matches_opt_inv (cs : cset) (t : str) (g g' : option str) :
  matches decimal icase (ROpt cs) t g g' ->
  t = [] \/ exists x, t = [x] /\ cset_match decimal icase cs x = true.
Proof. inversion 1; subst; eauto. Qed.

Lemma matches_set_inv (cs : cset) (t : str) (g g' : option str) :
  matches decimal icase (RSet cs) t g g' ->
  exists x, t = [x] /\ cset_match decimal icase cs x = true.
Proof. inversion 1; subst; eauto. Qed.

Lemma matches_group_inv (r : regex) (t : str) (g g' : option str) :
  matches decimal icase (RGroup r) t g g' ->
  g' = Some t /\ exists g1, matches decimal icase r t g g1.
Proof. inversion 1; subst; eauto. Qed.

Lemma matches_lits (l t : str) (g g' : option str) :
  matches decimal icase (foldr (fun c r => RSeq (RSet (CChar c)) r) REps l) t g g' ->
  Forall2 (fun c x => lit_match icase c x = true) l t.
Proof.
  revert t g. induction l as [|c l IH]; simpl; intros t g H.
  - apply matches_eps_inv in H as ->. constructor.
  - apply matches_seq_inv in H as (u & v & g1 & -> & Hu & Hv).
    apply matches_set_inv in Hu as (x & -> & Hx).
    simpl. constructor; [exact Hx | eapply IH; exact Hv].
Qed.

(** What the tail of a text pattern, separator and group, has matched. *)
Lemma matches_sep_value (t : str) (g g' : option str) :
  matches decimal icase (RSeq label_sep (RSeq rest_of_line REps)) t g g' ->
  exists sep value,
    t = sep ++ value /\ g' = Some value
    /\ sep <> [] /\ forallb (cset_match decimal icase sep_set) sep = true
    /\ value <> [] /\ forallb (cset_match decimal icase line_set) value = true.
Proof.
  intros H.
  apply matches_seq_inv in H as (sep & r1 & g1 & -> & Hs & H).
  apply matches_seq_inv in H as (value & r2 & g2 & -> & Hv & H).
  assert (g' = g2) by (inversion H; reflexivity). subst g2.
  apply matches_eps_inv in H as ->. rewrite app_nil_r.
  apply matches_plus_inv in Hs as [Hs1 Hs2].
  apply matches_group_inv in Hv as [-> [g3 Hv]].
  apply matches_plus_inv in Hv as [Hv1 Hv2].
  exists sep, value. auto 10.
Qed.

Lemma float_of_str_numeral (t : str) (gi go : option str) :
  matches decimal icase num_re t gi go ->
  exists f, float_of_str decimal t = Some f.
Proof.
  unfold num_re, re_seq, dot_set; simpl. intros H.
  apply matches_seq_inv in H as (d1 & r1 & g1 & -> & H1 & H).
  apply matches_seq_inv in H as (o & r2 & g2 & -> & H2 & H).
  apply matches_seq_inv in H as (d2 & r3 & g3 & -> & H3 & H).
  apply matches_eps_inv in H as ->. rewrite app_nil_r.
  apply matches_plus_inv in H1 as [Hne Hd].
  apply matches_star_inv in H3 as Hd2.
  unfold float_of_str.
  apply matches_opt_inv in H2 as [->|(c & -> & Hc)].
  - (* digits digits *)
    assert (Hall : forallb (cset_match decimal icase CDigit)
                     (d1 ++ [] ++ d2) = true).
    { rewrite !forallb_app. rewrite Hd, Hd2. reflexivity. }
    destruct (digits_all _ Hall) as (ds & Hlen & ->).
    destruct ds as [|d ds]; [|eauto].
    destruct d1; [congruence | discriminate Hlen].
  - (* digits . digits *)
    simpl in Hc. apply lit_match_dot in Hc. subst c.
    destruct (decimal 46) as [v|] eqn:Hdot.
    + assert (Hall : forallb (cset_match decimal icase CDigit)
                       (d1 ++ [46] ++ d2) = true).
      { rewrite !forallb_app. rewrite Hd, Hd2. simpl.
        rewrite Hdot. reflexivity. }
      destruct (digits_all _ Hall) as (ds & Hlen & ->).
      destruct ds as [|d ds]; [|eauto].
      destruct d1; [congruence | discriminate Hlen].
    + destruct (digits_app d1 ([46] ++ d2) Hd) as (ds & Hlen & ->).
      simpl. rewrite Hdot. simpl. rewrite app_nil_r.
      destruct ds as [|d ds]; [destruct d1; [congruence | discriminate Hlen]|].
      destruct (digits_all d2 Hd2) as (fs & _ & ->). eauto.
Qed.

Lemma digits_ascii (s : str) :
  decimal_ascii_ok decimal -> Forall (fun x => x < 128) s ->
  digits decimal s = digits ascii_decimal s.
Proof.
  intros Hok. induction 1 as [|x s Hx _ IH]; simpl; [reflexivity|].
  rewrite (Hok x Hx), IH. reflexivity.
Qed.

Lemma digits_rest (P : N -> Prop) (dec : N -> option N) (s : str) :
  Forall P s -> Forall P (snd (digits dec s)).
Proof.
  induction 1 as [|x s Hx Hs IH]; simpl; [constructor|].
  destruct (dec x).
  - destruct (digits dec s). exact IH.
  - constructor; assumption.
Qed.

(** On ASCII text [float] does not depend on the digit table. *)
Lemma float_of_str_ascii (s : str) :
  decimal_ascii_ok decimal -> Forall (fun x => x < 128) s ->
  float_of_str decimal s = float_of_str ascii_decimal s.
Proof.
  intros Hok Hs. unfold float_of_str. rewrite (digits_ascii s Hok Hs).
  pose proof (digits_rest _ ascii_decimal s Hs) as Hr.
  destruct (digits ascii_decimal s) as [ip r].
  destruct ip as [|d ip]; [reflexivity|].
  destruct r as [|dot r]; [reflexivity|].
  destruct (dot =? 46); [|reflexivity].
  simpl in Hr. inversion Hr as [|? ? _ Hr']; subst.
  rewrite (digits_ascii r Hok Hr'). reflexivity.
Qed.
End NumeralFacts.

(** ** The parser *)

Section ParserFacts.
Variable w : World.

Lemma bind_inr {A B} (m : M A) (f : A -> M B) (st st' : state) (a : A) :
  m st = (inr a, st') -> bind m f st = f a st'.
Proof. unfold bind. intros ->. reflexivity. Qed.

Lemma search_group (r b : regex) (text : str) (g : option str) :
  the_group r = Some b ->
  search w r text = Some g ->
  exists t gi go, g = Some t /\ matches (py_decimal w) true b t gi go.
Proof. apply re_search_group. Qed.

(** A match of one of the text patterns always carries its group, so
    [m.group(1).strip()] does not raise. *)
Lemma set_if_match_str (r b : regex) (key : string) (text : str)
    (d : gmap string pyvalue) (st : state) :
  the_group r = Some b ->
  set_if_match (search w r text) key str_value d st
  = (inr (put_opt key (VStr <$> str_field w r text) d), st).
Proof.
  intros Hb. unfold str_field.
  destruct (search w r text) as [g|] eqn:E; [|reflexivity].
  destruct (search_group r b text g Hb E) as (t & gi & go & -> & _).
  reflexivity.
Qed.

(** The group of the price pattern is a numeral [float] accepts. *)
Lemma set_if_match_price (text : str) (d : gmap string pyvalue) (st : state) :
  set_if_match (search w price_re text) "price" (float_value w) d st
  = (inr (put_opt "price" (VFloat <$> price_field w text) d), st).
Proof.
  unfold price_field.
  destruct (search w price_re text) as [g|] eqn:E; [|reflexivity].
  destruct (search_group price_re _ text g eq_refl E) as (t & gi & go & -> & Ht).
  destruct (float_of_str_numeral _ _ _ _ _ Ht) as [f Hf].
  simpl. unfold float_value, group1_float, bind. rewrite Hf. reflexivity.
Qed.

Lemma ProductData_init_regex (text : str) (st : state)
    (n b u s : option str) (p : option float) :
  ProductData_init w
    (<["confidence_score" := VFloat 0.7]>
       (<["raw_text" := VStr text]>
          (put_opt "shop_name" (VStr <$> s)
             (put_opt "unit" (VStr <$> u)
                (put_opt "price" (VFloat <$> p)
                   (put_opt "brand" (VStr <$> b)
                      (put_opt "product_name" (VStr <$> n) ∅))))))) st
  = match n with
    | Some name =>
        (inr {| product_name := name; brand := b; price := p; unit_ := u;
                shop_name := s; category := None; confidence_score := 0.7;
                raw_text := text; processing_timestamp := now w (clock st);
                gps := None |}, tick st)
    | None => (inl ValidationError, tick st)
    end.
Proof.
  destruct n, b, u, s, p; reflexivity.
Qed.

(** The regular-expression path in closed form. *)
Lemma parse_body_regex (text : str) (st : state) :
  startswith (strip text) (lit "{") = false ->
  parse_body w text st
  = match str_field w name_re text with
    | Some n => (inr (regex_record w text n (now w (clock st))), tick st)
    | None => (inl ValidationError, tick st)
    end.
Proof.
  intros H. unfold parse_body. rewrite H.
  erewrite bind_inr; [|eapply (set_if_match_str name_re); reflexivity].
  erewrite bind_inr; [|eapply (set_if_match_str brand_re); reflexivity].
  erewrite bind_inr; [|apply set_if_match_price].
  erewrite bind_inr; [|eapply (set_if_match_str unit_re); reflexivity].
  erewrite bind_inr; [|eapply (set_if_match_str shop_re); reflexivity].
  rewrite ProductData_init_regex. reflexivity.
Qed.

(** The handler of [parse]: whatever the body raised, the result is the
    record of the handler, and [parse] itself does not raise. *)
Lemma parse_handler (text : str) (st st1 : state) (e : exn) :
  parse_body w text st = (inl e, st1) ->
  parse w text st = (inr (unknown_product text (now w (clock st1))), tick st1).
Proof.
  intros H. unfold parse, try_except. rewrite H. reflexivity.
Qed.

Lemma parse_returns (text : str) (st st1 : state) (pd : ProductData) :
  parse_body w text st = (inr pd, st1) -> parse w text st = (inr pd, st1).
Proof.
  intros H. unfold parse, try_except. rewrite H. reflexivity.
Qed.

Lemma parse_total (text : str) (st : state) :
  exists pd st', parse w text st = (inr pd, st').
Proof.
  destruct (parse_body w text st) as [[e|pd] st1] eqn:E.
  - eexists _, _. apply (parse_handler _ _ _ _ E).
  - eexists _, _. apply (parse_returns _ _ _ _ E).
Qed.

(** [parse] calls no service. *)
Lemma ProductData_init_calls (kw : gmap string pyvalue) (st st' : state)
    (r : exn + ProductData) :
  ProductData_init w kw st = (r, st') ->
  llm_calls st' = llm_calls st /\ vision_calls st' = vision_calls st.
Proof.
  unfold ProductData_init, bind, datetime_now, ret, raise.
  destruct (kw !! "processing_timestamp") as [v|].
  - destruct (coerce_datetime w v) as [t|].
    + destruct (validate_fields w kw t); intros [= _ <-]; auto.
    + intros [= _ <-]; auto.
  - destruct (validate_fields w kw (now w (clock st))); intros [= _ <-]; auto.
Qed.

Lemma parse_body_calls (text : str) (st st' : state) (r : exn + ProductData) :
  parse_body w text st = (r, st') ->
  llm_calls st' = llm_calls st /\ vision_calls st' = vision_calls st.
Proof.
  unfold parse_body.
  destruct (startswith (strip text) (lit "{")) eqn:Hs.
  - unfold bind, lift. destruct (json_loads w text) as [e|data].
    + intros [= _ <-]. auto.
    + apply ProductData_init_calls.
  - fold (parse_body w text). intros H.
    assert (E : parse_body w text st = (r, st')).
    { unfold parse_body. rewrite Hs. exact H. }
    rewrite (parse_body_regex text st Hs) in E.
    destruct (str_field w name_re text); injection E as _ <-; auto.
Qed.
(** The regular-expression path when the product name is found. *)
Lemma parse_regex_found (text name : str) (st : state) :
  startswith (strip text) (lit "{") = false ->
  str_field w name_re text = Some name ->
  parse w text st = (inr (regex_record w text name (now w (clock st))), tick st).
Proof.
  intros Hs Hn. apply parse_returns.
  rewrite (parse_body_regex text st Hs), Hn. reflexivity.
Qed.
End ParserFacts.

(** ** The leftmost match *)

Section SearchFacts.
Variable w : World.

Lemma search_first (r : regex) (i : nat) :
  forall (text : str) (g : option str),
    no_match_before w r text i ->
    match_at w r (drop i text) = Some g ->
    search w r text = Some g.
Proof.
  unfold search, no_match_before, match_at.
  induction i as [|i IH]; intros text g Hno Hat.
  - rewrite drop_0 in Hat. destruct text; simpl; rewrite Hat; reflexivity.
  - destruct text as [|c text].
    + specialize (Hno 0%nat ltac:(lia)). rewrite drop_0 in Hno.
      rewrite drop_nil in Hat. congruence.
    + pose proof (Hno 0%nat ltac:(lia)) as H0. rewrite drop_0 in H0.
      simpl. rewrite H0. apply IH.
      * intros j Hj. apply (Hno (S j)). lia.
      * exact Hat.
Qed.
End SearchFacts.

(** ** The structured extractor *)

Section ExtractorFacts.
Variable w : World.

Lemma _parse_with_llm_blank (ocr_text : str) (st : state) :
  str_truthy (strip ocr_text) = false ->
  _parse_with_llm w ocr_text st
  = (inr (record3 (lit "No text detected") [] 0 (now w (clock st))), tick st).
Proof.
  intros H. unfold _parse_with_llm, try_except. rewrite H. reflexivity.
Qed.

Lemma _parse_with_llm_prompt_raises (ocr_text : str) (st : state) (e : exn) :
  str_truthy (strip ocr_text) = true ->
  prompt_format w ocr_text = inl e ->
  _parse_with_llm w ocr_text st
  = (inr (record3 (lit "Parsing failed") ocr_text 0.1 (now w (clock st))), tick st).
Proof.
  intros H He. unfold _parse_with_llm, try_except, chain_invoke, bind.
  rewrite H, He. reflexivity.
Qed.

Lemma _parse_with_llm_llm_raises (ocr_text prompt : str) (st : state) (e : exn) :
  str_truthy (strip ocr_text) = true ->
  prompt_format w ocr_text = inr prompt ->
  llm w prompt = inl e ->
  _parse_with_llm w ocr_text st
  = (inr (record3 (lit "Parsing failed") ocr_text 0.1
            (now w (clock (sent prompt st)))), tick (sent prompt st)).
Proof.
  intros H Hp He. unfold _parse_with_llm, try_except, chain_invoke, bind, call_llm.
  rewrite H, Hp. simpl. rewrite He. reflexivity.
Qed.

Lemma _parse_with_llm_parsed (ocr_text prompt completion : str)
    (st st' : state) (pd : ProductData) :
  str_truthy (strip ocr_text) = true ->
  prompt_format w ocr_text = inr prompt ->
  llm w prompt = inr completion ->
  parse w completion (sent prompt st) = (inr pd, st') ->
  _parse_with_llm w ocr_text st = (inr (set_raw_text ocr_text pd), st').
Proof.
  intros H Hp Hc Hparse.
  unfold _parse_with_llm, try_except, chain_invoke, bind, call_llm.
  rewrite H, Hp. simpl. rewrite Hc, Hparse. reflexivity.
Qed.

(** [_parse_with_llm] always returns a record, and its [raw_text] is the
    OCR text unless that text is blank. *)
Lemma _parse_with_llm_raw_text (ocr_text : str) (st : state) :
  exists pd st',
    _parse_with_llm w ocr_text st = (inr pd, st')
    /\ raw_text pd = if str_truthy (strip ocr_text) then ocr_text else [].
Proof.
  destruct (str_truthy (strip ocr_text)) eqn:H.
  - destruct (prompt_format w ocr_text) as [e|prompt] eqn:Hp.
    { eexists _, _. split; [eapply _parse_with_llm_prompt_raises; eauto|reflexivity]. }
    destruct (llm w prompt) as [e|completion] eqn:Hc.
    { eexists _, _. split; [eapply _parse_with_llm_llm_raises; eauto|reflexivity]. }
    destruct (parse_total w completion (sent prompt st)) as (pd & st' & Hparse).
    eexists _, _. split; [eapply _parse_with_llm_parsed; eauto|reflexivity].
  - eexists _, _. split; [apply _parse_with_llm_blank; exact H|reflexivity].
Qed.
End ExtractorFacts.

(** ** Label and value: what the five patterns find on a line *)

Section LineFacts.
Variable w : World.

Lemma match_brand (lab sep value rest : str) :
  spells (lit "brand") lab -> sep_value (py_decimal w) sep value rest ->
  match_at w brand_re (lab ++ sep ++ value ++ rest) = Some (Some value).
Proof.
  intros Hl (H1 & H2 & H3 & H4 & H5 & H6).
  unfold match_at, brand_re, re_seq, re_str. cbn [foldr].
  rewrite rmatch_seq_lits by exact Hl.
  apply rmatch_sep_value; assumption.
Qed.

Lemma match_unit (lab sep value rest : str) :
  spells (lit "unit") lab -> sep_value (py_decimal w) sep value rest ->
  match_at w unit_re (lab ++ sep ++ value ++ rest) = Some (Some value).
Proof.
  intros Hl (H1 & H2 & H3 & H4 & H5 & H6).
  unfold match_at, unit_re, re_seq, re_str. cbn [foldr].
  rewrite rmatch_seq_lits by exact Hl.
  apply rmatch_sep_value; assumption.
Qed.

Lemma match_name (lab1 lab2 sep value rest : str) (c : N) :
  spells (lit "product") lab1 -> c = chr "_" \/ c = chr " " ->
  spells (lit "name") lab2 -> sep_value (py_decimal w) sep value rest ->
  match_at w name_re (lab1 ++ c :: lab2 ++ sep ++ value ++ rest)
  = Some (Some value).
Proof.
  intros Hl1 Hc Hl2 (H1 & H2 & H3 & H4 & H5 & H6).
  unfold match_at, name_re, re_seq, re_str, under_or_space. cbn [foldr].
  rewrite rmatch_seq_lits by exact Hl1.
  rewrite rmatch_seq_set by (destruct Hc as [-> | ->]; reflexivity).
  rewrite rmatch_seq_lits by exact Hl2.
  apply rmatch_sep_value; assumption.
Qed.

Lemma match_shop (lab1 lab2 sep value rest : str) (c : N) :
  spells (lit "shop") lab1 -> c = chr "_" \/ c = chr " " ->
  spells (lit "name") lab2 -> sep_value (py_decimal w) sep value rest ->
  match_at w shop_re (lab1 ++ c :: lab2 ++ sep ++ value ++ rest)
  = Some (Some value).
Proof.
  intros Hl1 Hc Hl2 (H1 & H2 & H3 & H4 & H5 & H6).
  unfold match_at, shop_re, re_seq, re_str, under_or_space. cbn [foldr].
  rewrite rmatch_seq_lits by exact Hl1.
  rewrite rmatch_seq_set by (destruct Hc as [-> | ->]; reflexivity).
  rewrite rmatch_seq_lits by exact Hl2.
  apply rmatch_sep_value; assumption.
Qed.

Lemma match_price (lab sep d1 rest : str) :
  spells (lit "price") lab ->
  sep <> [] -> forallb (cset_match (py_decimal w) true sep_set) sep = true ->
  d1 <> [] -> forallb (cset_match (py_decimal w) true CDigit) d1 = true ->
  stops (cset_match (py_decimal w) true sep_set) d1 ->
  stops (cset_match (py_decimal w) true CDigit) rest ->
  stops (cset_match (py_decimal w) true dot_set) rest ->
  match_at w price_re (lab ++ sep ++ d1 ++ rest) = Some (Some d1).
Proof.
  intros Hl H1 H2 H3 H4 H5 H6 H7.
  unfold match_at, price_re, re_seq, re_str. cbn [foldr].
  rewrite rmatch_seq_lits by exact Hl.
  apply rmatch_sep_number; assumption.
Qed.
Lemma str_field_first (r : regex) (text v : str) (i : nat) :
  no_match_before w r text i ->
  match_at w r (drop i text) = Some (Some v) ->
  str_field w r text = Some (strip v).
Proof.
  intros Hno Hat. unfold str_field.
  rewrite (search_first w r i text _ Hno Hat). reflexivity.
Qed.

(** *** From a labelled line to the field *)

(** The brand is the stripped value of the first line labelled "brand",
    in any case. *)
Lemma brand_of_line (pre lab sep value rest : str) :
  spells (lit "brand") lab -> sep_value (py_decimal w) sep value rest ->
  no_match_before w brand_re (pre ++ lab ++ sep ++ value ++ rest) (length pre) ->
  str_field w brand_re (pre ++ lab ++ sep ++ value ++ rest) = Some (strip value).
Proof.
  intros Hl Hsv Hno. apply (str_field_first _ _ _ (length pre) Hno).
  rewrite drop_app_length. apply match_brand; assumption.
Qed.

Lemma unit_of_line (pre lab sep value rest : str) :
  spells (lit "unit") lab -> sep_value (py_decimal w) sep value rest ->
  no_match_before w unit_re (pre ++ lab ++ sep ++ value ++ rest) (length pre) ->
  str_field w unit_re (pre ++ lab ++ sep ++ value ++ rest) = Some (strip value).
Proof.
  intros Hl Hsv Hno. apply (str_field_first _ _ _ (length pre) Hno).
  rewrite drop_app_length. apply match_unit; assumption.
Qed.

Lemma name_of_line (pre lab1 lab2 sep value rest : str) (c : N) :
  spells (lit "product") lab1 -> c = chr "_" \/ c = chr " " ->
  spells (lit "name") lab2 -> sep_value (py_decimal w) sep value rest ->
  no_match_before w name_re
    (pre ++ lab1 ++ c :: lab2 ++ sep ++ value ++ rest) (length pre) ->
  str_field w name_re (pre ++ lab1 ++ c :: lab2 ++ sep ++ value ++ rest)
  = Some (strip value).
Proof.
  intros Hl1 Hc Hl2 Hsv Hno. apply (str_field_first _ _ _ (length pre) Hno).
  rewrite drop_app_length. apply match_name; assumption.
Qed.

Lemma shop_of_line (pre lab1 lab2 sep value rest : str) (c : N) :
  spells (lit "shop") lab1 -> c = chr "_" \/ c = chr " " ->
  spells (lit "name") lab2 -> sep_value (py_decimal w) sep value rest ->
  no_match_before w shop_re
    (pre ++ lab1 ++ c :: lab2 ++ sep ++ value ++ rest) (length pre) ->
  str_field w shop_re (pre ++ lab1 ++ c :: lab2 ++ sep ++ value ++ rest)
  = Some (strip value).
Proof.
  intros Hl1 Hc Hl2 Hsv Hno. apply (str_field_first _ _ _ (length pre) Hno).
  rewrite drop_app_length. apply match_shop; assumption.
Qed.

(** *** From the field back to the text *)

(** A field found by a pattern with a one-word label comes from the text:
    the label in some case, a separator of colons and white space, and a
    value without a line break, of which the field is the stripped form. *)
Lemma one_word_field_sound (l : string) (text v : str) :
  str_field w (re_seq [re_str l; label_sep; rest_of_line]) text = Some v ->
  exists pre lab sep value post,
    text = pre ++ lab ++ sep ++ value ++ post
    /\ spells (lit l) lab
    /\ sep <> [] /\ forallb (cset_match (py_decimal w) true sep_set) sep = true
    /\ value <> [] /\ forallb (cset_match (py_decimal w) true line_set) value = true
    /\ v = strip value.
Proof.
  unfold str_field, search.
  destruct (re_search (py_decimal w) true _ text) as [[g|]|] eqn:E; try discriminate.
  intros [= <-].
  apply re_search_sound in E as (pre & u & post & -> & H).
  unfold re_seq, re_str in H. cbn [foldr] in H.
  apply matches_seq_inv in H as (lab & t & g1 & -> & Hl & H).
  apply matches_lits in Hl.
  apply matches_sep_value in H as (sep & value & -> & [= ->] & H1 & H2 & H3 & H4).
  exists pre, lab, sep, value, post. rewrite <- !app_assoc. auto 10.
Qed.

Lemma brand_field_sound (text v : str) :
  str_field w brand_re text = Some v ->
  exists pre lab sep value post,
    text = pre ++ lab ++ sep ++ value ++ post
    /\ spells (lit "brand") lab
    /\ sep <> [] /\ forallb (cset_match (py_decimal w) true sep_set) sep = true
    /\ value <> [] /\ forallb (cset_match (py_decimal w) true line_set) value = true
    /\ v = strip value.
Proof. apply (one_word_field_sound "brand"). Qed.

Lemma unit_field_sound (text v : str) :
  str_field w unit_re text = Some v ->
  exists pre lab sep value post,
    text = pre ++ lab ++ sep ++ value ++ post
    /\ spells (lit "unit") lab
    /\ sep <> [] /\ forallb (cset_match (py_decimal w) true sep_set) sep = true
    /\ value <> [] /\ forallb (cset_match (py_decimal w) true line_set) value = true
    /\ v = strip value.
Proof. apply (one_word_field_sound "unit"). Qed.

(** The same for the two-word labels "product name" and "shop name",
    whose words are joined by an underscore or a space. *)
Lemma two_word_field_sound (l1 l2 : string) (text v : str) :
  str_field w
    (re_seq [re_str l1; under_or_space; re_str l2; label_sep; rest_of_line])
    text = Some v ->
  exists pre lab1 c lab2 sep value post,
    text = pre ++ lab1 ++ c :: lab2 ++ sep ++ value ++ post
    /\ spells (lit l1) lab1 /\ (c = chr "_" \/ c = chr " ")
    /\ spells (lit l2) lab2
    /\ sep <> [] /\ forallb (cset_match (py_decimal w) true sep_set) sep = true
    /\ value <> [] /\ forallb (cset_match (py_decimal w) true line_set) value = true
    /\ v = strip value.
Proof.
  unfold str_field, search.
  destruct (re_search (py_decimal w) true _ text) as [[g|]|] eqn:E; try discriminate.
  intros [= <-].
  apply re_search_sound in E as (pre & u & post & -> & H).
  unfold re_seq, re_str, under_or_space in H. cbn [foldr] in H.
  apply matches_seq_inv in H as (lab1 & t & g1 & -> & Hl1 & H).
  apply matches_lits in Hl1.
  apply matches_seq_inv in H as (cc & t2 & g2 & -> & Hc & H).
  apply matches_set_inv in Hc as (c & -> & Hc).
  apply matches_seq_inv in H as (lab2 & t3 & g3 & -> & Hl2 & H).
  apply matches_lits in Hl2.
  apply matches_sep_value in H as (sep & value & -> & [= ->] & H1 & H2 & H3 & H4).
  exists pre, lab1, c, lab2, sep, value, post.
  split; [repeat (simpl; rewrite <- ?app_assoc); reflexivity|].
  split; [exact Hl1|]. split; [|auto 10].
  cbn [cset_match] in Hc. apply orb_true_iff in Hc as [Hc|Hc].
  - left. apply (lit_match_exact true) in Hc; [exact Hc | reflexivity].
  - right. apply (lit_match_exact true) in Hc; [exact Hc | reflexivity].
Qed.

Lemma name_field_sound (text v : str) :
  str_field w name_re text = Some v ->
  exists pre lab1 c lab2 sep value post,
    text = pre ++ lab1 ++ c :: lab2 ++ sep ++ value ++ post
    /\ spells (lit "product") lab1 /\ (c = chr "_" \/ c = chr " ")
    /\ spells (lit "name") lab2
    /\ sep <> [] /\ forallb (cset_match (py_decimal w) true sep_set) sep = true
    /\ value <> [] /\ forallb (cset_match (py_decimal w) true line_set) value = true
    /\ v = strip value.
Proof. apply (two_word_field_sound "product" "name"). Qed.

Lemma shop_field_sound (text v : str) :
  str_field w shop_re text = Some v ->
  exists pre lab1 c lab2 sep value post,
    text = pre ++ lab1 ++ c :: lab2 ++ sep ++ value ++ post
    /\ spells (lit "shop") lab1 /\ (c = chr "_" \/ c = chr " ")
    /\ spells (lit "name") lab2
    /\ sep <> [] /\ forallb (cset_match (py_decimal w) true sep_set) sep = true
    /\ value <> [] /\ forallb (cset_match (py_decimal w) true line_set) value = true
    /\ v = strip value.
Proof. apply (two_word_field_sound "shop" "name"). Qed.
End LineFacts.


(** ** The image stages *)

Section ImageFacts.
Variable w : World.

(** An image that cannot be decoded does not make the preprocessor raise:
    the handler returns what [imread] returns, [None]. *)
Lemma _preprocess_image_undecodable (image_path : str) (st : state) :
  cv2_imread w image_path = inr None ->
  _preprocess_image w image_path st = (inr None, st).
Proof.
  intros H. unfold _preprocess_image, try_except, bind, lift. rewrite H.
  reflexivity.
Qed.

Lemma _assess_image_quality_value (im : ndarray) (v m : float) (st : state) :
  cv2_Laplacian_var w im = inr v -> np_mean w im = inr m ->
  _assess_image_quality w (Some im) st
  = (inr (py_min (py_min (v / 500) 1 * 0.7 + (1 - abs (m - 127) / 127) * 0.3) 1),
     st).
Proof.
  intros Hv Hm. unfold _assess_image_quality, try_except, bind.
  rewrite Hv, Hm. reflexivity.
Qed.

(** The quality score never raises and touches nothing; when a
    measurement fails it is 0.5. *)
Lemma _assess_image_quality_total (image : option ndarray) (st : state) :
  exists q, _assess_image_quality w image st = (inr q, st).
Proof.
  unfold _assess_image_quality, try_except, bind.
  destruct image as [im|]; [|eexists; reflexivity].
  destruct (cv2_Laplacian_var w im); [eexists; reflexivity|].
  destruct (np_mean w im); eexists; reflexivity.
Qed.

Lemma _assess_image_quality_failure (image : option ndarray) (st : state) :
  match image with
  | None => True
  | Some im =>
      (exists e, cv2_Laplacian_var w im = inl e) \/ (exists e, np_mean w im = inl e)
  end ->
  _assess_image_quality w image st = (inr 0.5%float, st).
Proof.
  unfold _assess_image_quality, try_except, bind.
  destruct image as [im|]; [|reflexivity].
  intros [[e He] | [e He]].
  - rewrite He. reflexivity.
  - rewrite He. destruct (cv2_Laplacian_var w im); reflexivity.
Qed.

(** The text extractor never raises. *)
Lemma _extract_text_with_vision_api_total (image_path : str) (st : state) :
  exists t st', _extract_text_with_vision_api w image_path st = (inr t, st').
Proof.
  unfold _extract_text_with_vision_api, try_except, bind, call_text_detection.
  destruct (read_bytes w image_path) as [e|content]; [eexists _, _; reflexivity|].
  simpl. destruct (text_detection w content) as [e|response];
    [eexists _, _; reflexivity|].
  destruct (str_truthy (resp_error_message response)); [eexists _, _; reflexivity|].
  destruct (resp_text_annotations response); eexists _, _; reflexivity.
Qed.
End ImageFacts.
(** * The claims *)

(** Runs the model on a closed example and reads off the result. *)
Ltac run :=
  vm_compute;
  repeat match goal with
         | |- exists _, _ => eexists
         | |- _ /\ _ => split
         end;
  first [reflexivity | discriminate].

(** C5: for an empty or white-space-only OCR text [_parse_with_llm]
    returns at once the record named "No text detected" with confidence
    0.0, and the language model is not called: the prompts sent are the
    same before and after (the clock alone is read, for the timestamp). *)
Theorem blank_text_short_circuits (w : World) (ocr_text : str) (st : state) :
  forallb isspace ocr_text = true ->
  _parse_with_llm w ocr_text st
  = (inr (record3 (lit "No text detected") [] 0 (now w (clock st))), tick st)
  /\ llm_calls (tick st) = llm_calls st.
Proof.
  intros H. split; [|reflexivity].
  apply _parse_with_llm_blank. apply str_truthy_false.
  apply strip_spaces. exact H.
Qed.

Lemma blank_text_short_circuits_witness :
  _parse_with_llm (answering (inr (lit "unused"))) [32; 10; 9] st0
  = (inr (record3 (lit "No text detected") [] 0 0), tick st0)
  /\ llm_calls (tick st0) = llm_calls st0.
Proof.
  apply (blank_text_short_circuits (answering (inr (lit "unused"))) [32; 10; 9] st0).
  reflexivity.
Defined.

(** C9, as stated, fails for a blank text that is not empty: for the OCR
    text made of one space the record has the empty [raw_text]. *)
Lemma raw_text_of_blank_text :
  exists pd st',
    _parse_with_llm (answering (inr (lit "unused"))) [32] st0 = (inr pd, st')
    /\ raw_text pd = [] /\ raw_text pd <> [32].
Proof. run. Qed.

(** C9, amended: [_parse_with_llm] always returns a record; its [raw_text]
    is the OCR text it was given whenever that text is not blank, on every
    path (JSON, regular expressions, the handler of the parser, the handler
    of the extractor), and the empty string when the text is blank. *)
Theorem raw_text_is_ocr_text (w : World) (ocr_text : str) (st : state) :
  exists pd st',
    _parse_with_llm w ocr_text st = (inr pd, st')
    /\ raw_text pd = if str_truthy (strip ocr_text) then ocr_text else [].
Proof. apply _parse_with_llm_raw_text. Qed.

(** C4, as stated, fails when it is the parser that fails: the language
    model answers "hello", the regular expressions find no product name,
    the constructor raises inside [parse], and the record is named
    "Unknown Product", not "Parsing failed". *)
Lemma parser_failure_is_not_parsing_failed :
  let w := answering (inr (lit "hello")) in
  (exists e st1, parse_body w (lit "hello") (sent (lit "abc") st0) = (inl e, st1))
  /\ exists pd st',
       _parse_with_llm w (lit "abc") st0 = (inr pd, st')
       /\ product_name pd = lit "Unknown Product"
       /\ product_name pd <> lit "Parsing failed".
Proof. run. Qed.

(** C4, amended: when the OCR text is not blank and the extraction fails,
    the record has confidence 0.1 and the OCR text as [raw_text]; its
    product name is "Parsing failed" when the rendering of the prompt or the
    call of the language model raised, and "Unknown Product" when the
    parser failed on the completion. *)
Theorem extraction_failure_record (w : World) (ocr_text name : str) (st : state) :
  str_truthy (strip ocr_text) = true ->
  extraction_failure w ocr_text st name ->
  exists ts st',
    _parse_with_llm w ocr_text st = (inr (record3 name ocr_text 0.1 ts), st').
Proof.
  intros Hne [e He | prompt e Hp He | prompt completion e st1 Hp Hc Hb].
  - eexists _, _. eapply _parse_with_llm_prompt_raises; eauto.
  - eexists _, _. eapply _parse_with_llm_llm_raises; eauto.
  - eexists _, _.
    rewrite (_parse_with_llm_parsed w _ _ _ _ _ _ Hne Hp Hc
               (parse_handler w _ _ _ _ Hb)).
    reflexivity.
Qed.

Lemma extraction_failure_record_witness :
  exists ts st',
    _parse_with_llm (answering (inl (Exception "APIError" (lit "timeout"))))
      (lit "RICE 450") st0
    = (inr (record3 (lit "Parsing failed") (lit "RICE 450") 0.1 ts), st').
Proof.
  apply (extraction_failure_record
           (answering (inl (Exception "APIError" (lit "timeout"))))
           (lit "RICE 450") (lit "Parsing failed") st0).
  - reflexivity.
  - apply (service_raises _ _ _ (lit "RICE 450")
             (Exception "APIError" (lit "timeout"))); reflexivity.
Defined.

(** C10: when [parse] fails inside its [try] -- the response starts with
    an opening brace and the JSON decoder raises, or the regular
    expressions find no product name so that the constructor raises, or
    the body raises for any other reason -- it returns the record named
    "Unknown Product" with confidence 0.1 and the response as [raw_text];
    it does not raise, and it calls no service. *)
Theorem parse_failure_sentinel (w : World) (text : str) (st : state) :
  (startswith (strip text) (lit "{") = true /\ exists e, json_loads w text = inl e)
  \/ (startswith (strip text) (lit "{") = false /\ search w name_re text = None)
  \/ (exists e st1, parse_body w text st = (inl e, st1)) ->
  exists ts st',
    parse w text st = (inr (unknown_product text ts), st')
    /\ llm_calls st' = llm_calls st /\ vision_calls st' = vision_calls st.
Proof.
  intros [[Hs [e He]] | [[Hs Hn] | (e & st1 & Hb)]].
  - assert (Hb : parse_body w text st = (inl e, st)).
    { unfold parse_body, bind. rewrite Hs, He. reflexivity. }
    rewrite (parse_handler w _ _ _ _ Hb). eexists _, _. split; [reflexivity|].
    split; reflexivity.
  - pose proof (parse_body_regex w text st Hs) as Hb.
    unfold str_field in Hb. rewrite Hn in Hb.
    rewrite (parse_handler w _ _ _ _ Hb). eexists _, _. split; [reflexivity|].
    split; reflexivity.
  - rewrite (parse_handler w _ _ _ _ Hb). eexists _, _. split; [reflexivity|].
    apply parse_body_calls in Hb. exact Hb.
Qed.

Lemma parse_failure_sentinel_witness :
  exists ts st',
    parse (answering (inr [])) (lit "{ Product Name: Rice") st0
    = (inr (unknown_product (lit "{ Product Name: Rice") ts), st')
    /\ llm_calls st' = llm_calls st0 /\ vision_calls st' = vision_calls st0.
Proof.
  apply (parse_failure_sentinel (answering (inr [])) (lit "{ Product Name: Rice") st0).
  left. split; [reflexivity|]. exists JSONDecodeError. reflexivity.
Defined.

(** Comparisons of floats that are numbers are total: when [a <= x] is
    false, [x < a] is true. *)
Lemma SFcompare_antisym (a b : spec_float) :
  SFcompare b a = option_map CompOpp (SFcompare a b).
Proof.
  destruct a as [s1|s1| |s1 m1 e1], b as [s2|s2| |s2 m2 e2]; simpl; try reflexivity;
    try (destruct s1, s2; reflexivity); try (destruct s1; reflexivity);
    try (destruct s2; reflexivity).
  destruct s1, s2; simpl; try reflexivity;
    rewrite (Z.compare_antisym e2 e1);
    change (PosDef.Pos.compare_cont Eq m1 m2) with (m1 ?= m2)%positive;
    change (PosDef.Pos.compare_cont Eq m2 m1) with (m2 ?= m1)%positive;
    rewrite (Pos.compare_antisym m2 m1);
    destruct (e2 ?= e1)%Z, (m2 ?= m1)%positive; reflexivity.
Qed.

Lemma SFcompare_None (a b : spec_float) :
  SFcompare a b = None -> a = S754_nan \/ b = S754_nan.
Proof.
  destruct a as [s1|s1| |s1 m1 e1], b as [s2|s2| |s2 m2 e2]; simpl;
    try discriminate; auto.
Qed.

Lemma leb_false_ltb (a x : float) :
  is_number x = true -> is_number a = true ->
  (a <=? x)%float = false -> (x <? a)%float = true.
Proof.
  unfold is_number.
  rewrite !FloatAxioms.eqb_spec, FloatAxioms.leb_spec, FloatAxioms.ltb_spec.
  unfold SFeqb, SFleb, SFltb.
  rewrite (SFcompare_antisym (Prim2SF a) (Prim2SF x)).
  destruct (SFcompare (Prim2SF a) (Prim2SF x)) as [c|] eqn:E.
  - destruct c; simpl; congruence.
  - apply SFcompare_None in E. destruct E as [-> | ->]; simpl; discriminate.
Qed.

(** A price that is a number and lies outside [1, 100000] is below 1 or
    above 100000. *)
Lemma outside_range_number (x : float) :
  is_number x = true -> outside_range x = true ->
  (x <? 1)%float = true \/ (100000 <? x)%float = true.
Proof.
  intros Hx. unfold outside_range. rewrite negb_true_iff, andb_false_iff.
  intros [H|H].
  - left. apply leb_false_ltb; [exact Hx | reflexivity | exact H].
  - right. apply leb_false_ltb; [reflexivity | exact Hx | exact H].
Qed.

(** C8 does not hold of the code: a price that is not a number lies
    outside [1, 100000], and [validate_product_data] accepts the record
    that carries it, because neither of its two comparisons is true of
    such a price. The record is one the parser itself produces: from a
    JSON response whose price is the literal NaN. *)
Theorem nan_price_is_accepted :
  is_number nan = false
  /\ outside_range nan = true
  /\ rejected (product (lit "Tea") 0.5 (Some nan))
  /\ fst (validate_product_data (product (lit "Tea") 0.5 (Some nan))) = true
  /\ exists pd st',
       parse (json_world nan_price_object) nan_price_json st0 = (inr pd, st')
       /\ product_name pd = lit "Tea"
       /\ confidence_score pd = 0.5%float
       /\ price pd = Some nan
       /\ rejected pd
       /\ fst (validate_product_data pd) = true.
Proof.
  assert (Hr : forall n c, rejected (product n c (Some nan))).
  { intros n c. right. right. exists nan. split; reflexivity. }
  split; [reflexivity|]. split; [reflexivity|]. split; [apply Hr|].
  split; [reflexivity|].
  exists (product (lit "Tea") 0.5 (Some nan)), (tick st0).
  split; [vm_compute; reflexivity|]. repeat split; try reflexivity. apply Hr.
Qed.

(** The rest of the claim holds. [validate_product_data] returns [False]
    for every record with an empty product name, or a confidence below
    0.3, or a price that is a number and lies outside [1, 100000]; so it
    rejects the price 200000 and the confidence 0.2; it accepts the record
    named "Tea" with confidence 0.5 and price 300; and it leaves the record
    it is given as it was. *)
Lemma validate_product_data_spec :
  (forall pd, rejected pd ->
              (forall x, price pd = Some x -> is_number x = true) ->
              fst (validate_product_data pd) = false)
  /\ fst (validate_product_data (product (lit "Tea") 0.5 (Some 200000%float))) = false
  /\ fst (validate_product_data (product (lit "Tea") 0.2 (Some 300%float))) = false
  /\ fst (validate_product_data (product [] 0.5 (Some 300%float))) = false
  /\ fst (validate_product_data (product (lit "Tea") 0.5 (Some 300%float))) = true
  /\ (forall pd, snd (validate_product_data pd) = pd).
Proof.
  split; [|repeat split; try reflexivity].
  - intros pd [Hn | [Hc | (x & Hp & Hx)]] Hnum;
      unfold validate_product_data, obj_bind, getattr, obj_ret.
    + rewrite Hn. reflexivity.
    + destruct (negb (str_truthy (product_name pd))
                || bool_decide (strip (product_name pd) = [])); [reflexivity|].
      rewrite Hc. reflexivity.
    + destruct (negb (str_truthy (product_name pd))
                || bool_decide (strip (product_name pd) = [])); [reflexivity|].
      destruct (confidence_score pd <? 0.3)%float; [reflexivity|].
      rewrite Hp.
      destruct (outside_range_number x (Hnum x Hp) Hx) as [-> | ->];
        [reflexivity|].
      rewrite orb_true_r. reflexivity.
  - intros pd. unfold validate_product_data, obj_bind, getattr, obj_ret.
    destruct (negb (str_truthy (product_name pd))
              || bool_decide (strip (product_name pd) = [])); [reflexivity|].
    destruct (confidence_score pd <? 0.3)%float; [reflexivity|].
    destruct (price pd) as [x|]; [|reflexivity].
    destruct ((x <? 1)%float || (100000 <? x)%float); reflexivity.
Qed.

(** C3, as stated, fails in two ways. A response that starts with an
    opening brace and is not JSON never reaches the regular expressions:
    the product name they would find is not in the record. A response in
    which the product name is not matched loses the fields that are
    matched: the brand found by the pattern is not in the record. *)
Lemma no_fallback_counterexample :
  ~ falls_back_to_regex (answering (inr [])) (lit "{ Product Name: Rice") st0
  /\ ~ falls_back_to_regex (answering (inr [])) (lit "Brand: Anchor") st0.
Proof.
  split; intros H.
  - destruct H as (pd & st' & Hp & Hn & _); [exists JSONDecodeError; reflexivity|].
    specialize (Hn (lit "Rice") ltac:(vm_compute; reflexivity)).
    vm_compute in Hp. injection Hp as <- _. discriminate Hn.
  - destruct H as (pd & st' & Hp & _ & Hb & _); [exists JSONDecodeError; reflexivity|].
    vm_compute in Hp. injection Hp as <- _. discriminate Hb.
Qed.

(** C3, amended: for every response whose stripped text does not start
    with an opening brace and in which the product-name pattern matches,
    [parse] returns the record of the regular expressions: each of
    product_name, brand, unit, shop_name is the stripped group of the
    leftmost case-insensitive match of its pattern, price is the value of
    the numeral after its label, a field whose pattern does not match is
    [None], category is [None], the confidence is 0.7 and [raw_text] is
    the response. *)
Theorem regex_fallback_record (w : World) (text name : str) (st : state) :
  startswith (strip text) (lit "{") = false ->
  str_field w name_re text = Some name ->
  parse w text st = (inr (regex_record w text name (now w (clock st))), tick st).
Proof. apply parse_regex_found. Qed.

Lemma regex_fallback_record_witness :
  parse (answering (inr []))
    (lit "product_name  Milk Powder " ++ [10] ++ lit "BRAND:Anchor") st0
  = (inr (regex_record (answering (inr []))
            (lit "product_name  Milk Powder " ++ [10] ++ lit "BRAND:Anchor")
            (lit "Milk Powder") 0), tick st0).
Proof.
  apply (regex_fallback_record (answering (inr []))
           (lit "product_name  Milk Powder " ++ [10] ++ lit "BRAND:Anchor")
           (lit "Milk Powder") st0); vm_compute; reflexivity.
Defined.

(** ** The two lines of the example *)

Section RiceFacts.
Variable w : World.

Lemma match_rice_line (rest : str) :
  rest = [] \/ (exists r, rest = 10 :: r) ->
  match_at w name_re (rice_line ++ rest) = Some (Some (lit "Rice 5kg")).
Proof.
  intros Hrest.
  apply (match_name w (lit "Product") (lit "Name") (lit ": ") (lit "Rice 5kg")
           rest (chr " ")).
  - repeat constructor.
  - right. reflexivity.
  - repeat constructor.
  - repeat split; try reflexivity; try discriminate.
    destruct Hrest as [-> | [r ->]]; reflexivity.
Qed.

Lemma match_price_line (rest : str) :
  decimal_ascii_ok (py_decimal w) ->
  rest = [] \/ (exists r, rest = 10 :: r) ->
  match_at w price_re (price_line ++ rest) = Some (Some (lit "450")).
Proof.
  intros Hok Hrest.
  apply (match_price w (lit "Price") (lit ": ") (lit "450") rest).
  - repeat constructor.
  - discriminate.
  - reflexivity.
  - discriminate.
  - simpl. rewrite !Hok by reflexivity. reflexivity.
  - reflexivity.
  - destruct Hrest as [-> | [r ->]]; simpl; [exact I|].
    rewrite Hok by reflexivity. reflexivity.
  - destruct Hrest as [-> | [r ->]]; reflexivity.
Qed.
End RiceFacts.

(** C6, as stated, fails in two ways. In a response that contains the two
    lines after another product-name line, the product name is taken from
    the earlier line. And the confidence of the regular-expression path is
    0.1, not 0.7, when only the brand is matched. *)
Lemma rice_counterexample :
  ~ rice_claim (answering (inr []))
      (lit "Product Name: Milk" ++ [10] ++ rice_line ++ [10] ++ price_line) st0
  /\ ~ fixed_confidence_claim (answering (inr [])) (lit "Brand: Anchor") st0.
Proof.
  split; intros H.
  - destruct H as (pd & st' & Hp & Hn & _).
    + exists JSONDecodeError. reflexivity.
    + exists 19%nat. split; [|right; reflexivity].
      exists ([10] ++ price_line). split; [reflexivity|]. right. eexists. reflexivity.
    + exists 42%nat. split; [|right; reflexivity].
      exists []. split; [reflexivity|]. left. reflexivity.
    + vm_compute in Hp. injection Hp as <- _. discriminate Hn.
  - destruct H as (pd & st' & Hp & Hc); [reflexivity|].
    vm_compute in Hp. injection Hp as <- _. discriminate Hc.
Qed.

(** C6, amended: for a response whose stripped text does not start with
    an opening brace, (1) whenever the product-name pattern matches, the
    record has the matched name and the confidence 0.7, whatever the other
    patterns find; (2) when the text reads "Product Name: Rice 5kg" to the
    end of a line at the first position where the product-name pattern
    matches, and "Price: 450" to the end of a line at the first position
    where the price pattern matches, the record has the product name
    "Rice 5kg", the price 450.0 and the confidence 0.7. *)
Theorem rice_and_fixed_confidence (w : World) (text : str) (st : state) :
  startswith (strip text) (lit "{") = false ->
  (forall name, str_field w name_re text = Some name ->
     exists pd,
       parse w text st = (inr pd, tick st)
       /\ product_name pd = name /\ confidence_score pd = 0.7%float)
  /\ (forall i j,
        decimal_ascii_ok (py_decimal w) ->
        line_at text i rice_line -> no_match_before w name_re text i ->
        line_at text j price_line -> no_match_before w price_re text j ->
        exists pd,
          parse w text st = (inr pd, tick st)
          /\ product_name pd = lit "Rice 5kg"
          /\ price pd = Some 450%float
          /\ confidence_score pd = 0.7%float).
Proof.
  intros Hs. split.
  - intros name Hn. eexists. split; [apply parse_regex_found; eassumption|].
    split; reflexivity.
  - intros i j Hok (rest1 & E1 & Hr1) Hno1 (rest2 & E2 & Hr2) Hno2.
    assert (Hn : str_field w name_re text = Some (lit "Rice 5kg")).
    { apply (str_field_first w name_re text (lit "Rice 5kg") i Hno1).
      rewrite E1. apply match_rice_line. exact Hr1. }
    assert (Hp : price_field w text = Some 450%float).
    { unfold price_field.
      rewrite (search_first w price_re j text (Some (lit "450")) Hno2).
      - rewrite (float_of_str_ascii (py_decimal w) (lit "450") Hok).
        + reflexivity.
        + repeat constructor.
      - rewrite E2. apply match_price_line; assumption. }
    eexists. split; [apply parse_regex_found; eassumption|].
    split; [reflexivity|]. split; [exact Hp | reflexivity].
Qed.

Lemma rice_and_fixed_confidence_witness :
  let w := answering (inr []) in
  let text := lit "Shop: Keells" ++ [10] ++ rice_line ++ [10] ++ price_line in
  (exists pd,
     parse w text st0 = (inr pd, tick st0)
     /\ product_name pd = lit "Rice 5kg" /\ confidence_score pd = 0.7%float)
  /\ (exists pd,
        parse w text st0 = (inr pd, tick st0)
        /\ product_name pd = lit "Rice 5kg"
        /\ price pd = Some 450%float
        /\ confidence_score pd = 0.7%float).
Proof.
  intros w text.
  destruct (rice_and_fixed_confidence w text st0 eq_refl) as [H1 H2].
  split.
  - apply (H1 (lit "Rice 5kg")). vm_compute. reflexivity.
  - apply (H2 13%nat 36%nat).
    + intros x _. reflexivity.
    + exists ([10] ++ price_line). split; [reflexivity|]. right. eexists. reflexivity.
    + intros k Hk. do 13 (destruct k as [|k]; [vm_compute; reflexivity|]). lia.
    + exists []. split; [reflexivity|]. left. reflexivity.
    + intros k Hk. do 36 (destruct k as [|k]; [vm_compute; reflexivity|]). lia.
Defined.

(** C7 does not hold of the code: the score is bounded above by 1 only.
    For a frame that is white everywhere (Laplacian variance 0, mean
    intensity 255) the brightness term is 1 - 128/127 and the score is
    negative, against the docstring of the function (a score from 0.0 to
    1.0). *)
Theorem quality_of_white_frame :
  cv2_Laplacian_var white_world white_frame = inr 0%float
  /\ np_mean white_world white_frame = inr 255%float
  /\ exists q,
       _assess_image_quality white_world (Some white_frame) st0 = (inr q, st0)
       /\ q = ((1 - 128 / 127) * 0.3)%float
       /\ (q <? 0)%float = true.
Proof. run. Qed.

(** C1 does not hold of the code: for a path whose image cannot be
    decoded ([imread] gives [None]) the [ValueError] is caught inside the
    preprocessor, the quality score falls back to 0.5, and [process_image]
    reports success with a product record. *)
Theorem undecodable_image_reports_success :
  cv2_imread corrupt_world (lit "corrupt.jpg") = inr None
  /\ exists r st',
       process_image corrupt_world (lit "corrupt.jpg") None None st0 = (inr r, st')
       /\ success r = true
       /\ error_message r = None
       /\ product_data r = Some (record3 (lit "No text detected") [] 0 1000)
       /\ image_quality_score r = Some 0.5%float.
Proof. run. Qed.

(** C2 does not hold of the code: for the white frame the quality score
    is negative, the confidence 0.7 of the regular-expression path is
    positive and is multiplied by it, and the run succeeds with a negative
    confidence. *)
Theorem confidence_of_white_frame :
  exists r st' pd,
    process_image white_world (lit "white.jpg") None None st0 = (inr r, st')
    /\ success r = true
    /\ product_data r = Some pd
    /\ product_name pd = lit "Rice 5kg"
    /\ confidence_score pd = (0.7 * ((1 - 128 / 127) * 0.3))%float
    /\ (confidence_score pd <? 0)%float = true.
Proof. run. Qed.

(** * Further properties of the agent *)

Section AgentFacts.
Variable w : World.

(** What [imread] raises, both times, leaves the preprocessor. *)
Lemma _preprocess_image_raises (image_path : str) (e : exn) (st : state) :
  cv2_imread w image_path = inl e ->
  _preprocess_image w image_path st = (inl e, st).
Proof.
  intros H. unfold _preprocess_image, try_except, bind, lift. rewrite H.
  reflexivity.
Qed.

(** When [imread] returns, the preprocessor returns. *)
Lemma _preprocess_image_total (image_path : str) (read : option ndarray)
    (st : state) :
  cv2_imread w image_path = inr read ->
  exists image, _preprocess_image w image_path st = (inr image, st).
Proof.
  intros E. unfold _preprocess_image, try_except, bind, lift, ret, raise.
  rewrite E. destruct read as [image|]; [|eexists; reflexivity].
  destruct (cv2_cvtColor w image) as [e|gray]; [eexists; reflexivity|].
  destruct (clahe_apply w gray) as [e|enhanced]; [eexists; reflexivity|].
  destruct (cv2_fastNlMeansDenoising w enhanced) as [e|denoised];
    [eexists; reflexivity|].
  destruct (cv2_filter2D w denoised sharpen_kernel); eexists; reflexivity.
Qed.

Lemma _assess_image_quality_bound (image : option ndarray) (st : state) :
  exists q,
    _assess_image_quality w image st = (inr q, st) /\ (1 <? q)%float = false.
Proof.
  unfold _assess_image_quality, try_except, bind, lift, ret, raise.
  destruct image as [im|]; [|eexists; split; reflexivity].
  destruct (cv2_Laplacian_var w im) as [e|v]; [eexists; split; reflexivity|].
  destruct (np_mean w im) as [e|m]; [eexists; split; reflexivity|].
  eexists. split; [reflexivity|].
  unfold py_min at 1.
  match goal with |- context [if (1 <? ?x)%float then _ else _] =>
    destruct (1 <? x)%float eqn:E end; [reflexivity | exact E].
Qed.

Lemma _extract_text_state (image_path : str) (st : state) :
  exists t st',
    _extract_text_with_vision_api w image_path st = (inr t, st')
    /\ clock st' = clock st /\ llm_calls st' = llm_calls st.
Proof.
  unfold _extract_text_with_vision_api, try_except, bind, call_text_detection.
  destruct (read_bytes w image_path) as [e|content];
    [eexists _, _; split; [reflexivity|split; reflexivity]|].
  simpl. destruct (text_detection w content) as [e|response];
    [eexists _, _; split; [reflexivity|split; reflexivity]|].
  destruct (str_truthy (resp_error_message response));
    [eexists _, _; split; [reflexivity|split; reflexivity]|].
  destruct (resp_text_annotations response);
    eexists _, _; (split; [reflexivity|split; reflexivity]).
Qed.

Lemma ProductData_init_clock (kw : gmap string pyvalue) (st st' : state)
    (r : exn + ProductData) :
  ProductData_init w kw st = (r, st') ->
  (clock st <= clock st' <= clock st + 1)%nat.
Proof.
  unfold ProductData_init, bind, datetime_now, ret, raise.
  destruct (kw !! "processing_timestamp") as [v|].
  - destruct (coerce_datetime w v) as [t|].
    + destruct (validate_fields w kw t); intros [= _ <-]; lia.
    + intros [= _ <-]; lia.
  - destruct (validate_fields w kw (now w (clock st))); intros [= _ <-];
      simpl; lia.
Qed.

Lemma parse_body_clock (text : str) (st st' : state) (r : exn + ProductData) :
  parse_body w text st = (r, st') ->
  (clock st <= clock st' <= clock st + 1)%nat.
Proof.
  intros H. destruct (startswith (strip text) (lit "{")) eqn:Hs.
  - unfold parse_body in H. rewrite Hs in H. unfold bind, lift in H.
    destruct (json_loads w text) as [e|data].
    + injection H as _ <-. lia.
    + apply ProductData_init_clock in H. exact H.
  - rewrite (parse_body_regex w text st Hs) in H.
    destruct (str_field w name_re text); injection H as _ <-; simpl; lia.
Qed.

Lemma parse_clock (text : str) (st : state) :
  exists pd st',
    parse w text st = (inr pd, st')
    /\ (clock st <= clock st' <= clock st + 2)%nat
    /\ llm_calls st' = llm_calls st.
Proof.
  destruct (parse_body w text st) as [[e|pd] st1] eqn:E.
  - pose proof (parse_body_clock _ _ _ _ E).
    pose proof (parse_body_calls w _ _ _ _ E) as [Hl _].
    rewrite (parse_handler w _ _ _ _ E). eexists _, _. split; [reflexivity|].
    simpl. split; [lia | exact Hl].
  - pose proof (parse_body_clock _ _ _ _ E).
    pose proof (parse_body_calls w _ _ _ _ E) as [Hl _].
    rewrite (parse_returns w _ _ _ _ E). eexists _, _. split; [reflexivity|].
    split; [lia | exact Hl].
Qed.

Lemma _parse_with_llm_clock (ocr_text : str) (st : state) :
  exists pd st',
    _parse_with_llm w ocr_text st = (inr pd, st')
    /\ (clock st <= clock st' <= clock st + 2)%nat.
Proof.
  destruct (str_truthy (strip ocr_text)) eqn:H.
  - destruct (prompt_format w ocr_text) as [e|prompt] eqn:Hp.
    { rewrite (_parse_with_llm_prompt_raises w _ _ _ H Hp).
      eexists _, _. split; [reflexivity | simpl; lia]. }
    destruct (llm w prompt) as [e|completion] eqn:Hc.
    { rewrite (_parse_with_llm_llm_raises w _ _ _ _ H Hp Hc).
      eexists _, _. split; [reflexivity | simpl; lia]. }
    destruct (parse_clock completion (sent prompt st)) as (pd & st' & Hparse & Hk & _).
    rewrite (_parse_with_llm_parsed w _ _ _ _ _ _ H Hp Hc Hparse).
    eexists _, _. split; [reflexivity | exact Hk].
  - rewrite (_parse_with_llm_blank w _ _ H).
    eexists _, _. split; [reflexivity | simpl; lia].
Qed.

Lemma elapsed_ms_finite (start : Z) (st : state) :
  elapsed_finite start (now w (clock st)) ->
  exists ms, elapsed_ms w start st = (inr ms, tick st).
Proof.
  intros [ms H]. exists ms. unfold elapsed_ms, bind, datetime_now.
  rewrite H. reflexivity.
Qed.

(** [process_image], stage by stage. *)
Lemma process_image_steps (image_path : str) (gps_coords : option (float * float))
    (metadata : option (gmap string pyvalue)) (st st2 st3 st4 : state)
    (image : option ndarray) (q : float) (ocr_text : str) (pd : ProductData)
    (ms : Z) :
  _preprocess_image w image_path (tick st) = (inr image, tick st) ->
  _assess_image_quality w image (tick st) = (inr q, tick st) ->
  _extract_text_with_vision_api w image_path (tick st) = (inr ocr_text, st2) ->
  _parse_with_llm w ocr_text st2 = (inr pd, st3) ->
  elapsed_ms w (now w (clock st)) st3 = (inr ms, st4) ->
  process_image w image_path gps_coords metadata st
  = (inr {| success := true;
            product_data :=
              Some (let scaled :=
                      if (0 <? confidence_score pd)%float
                      then set_confidence_score (confidence_score pd * q) pd
                      else pd in
                    match gps_coords with
                    | Some g => set_gps g scaled
                    | None => scaled
                    end);
            error_message := None;
            processing_time_ms := ms;
            image_quality_score := Some q |}, st4).
Proof.
  intros H1 H2 H3 H4 H5.
  unfold process_image, bind at 1, datetime_now, try_except.
  unfold bind. rewrite H1, H2, H3, H4, H5. reflexivity.
Qed.
End AgentFacts.

Section AgentFacts2.
Variable w : World.

Lemma validate_fields_gps (kw : gmap string pyvalue) (ts : Z) (pd : ProductData) :
  validate_fields w kw ts = Some pd -> gps pd = None.
Proof.
  unfold validate_fields. intros H.
  repeat match type of H with
         | mbind _ ?o = Some _ => destruct o; simpl in H; [|discriminate H]
         end.
  injection H as <-. reflexivity.
Qed.

Lemma ProductData_init_gps (kw : gmap string pyvalue) (st st' : state)
    (pd : ProductData) :
  ProductData_init w kw st = (inr pd, st') -> gps pd = None.
Proof.
  unfold ProductData_init, bind, datetime_now, ret, raise.
  destruct (kw !! "processing_timestamp") as [v|].
  - destruct (coerce_datetime w v) as [t|]; [|discriminate].
    destruct (validate_fields w kw t) eqn:E; [|discriminate].
    intros [= <- _]. eapply validate_fields_gps; exact E.
  - destruct (validate_fields w kw (now w (clock st))) eqn:E; [|discriminate].
    intros [= <- _]. eapply validate_fields_gps; exact E.
Qed.

Lemma parse_gps (text : str) (st st' : state) (pd : ProductData) :
  parse w text st = (inr pd, st') -> gps pd = None.
Proof.
  destruct (parse_body w text st) as [[e|pd1] st1] eqn:E.
  - rewrite (parse_handler w _ _ _ _ E). intros [= <- _]. reflexivity.
  - rewrite (parse_returns w _ _ _ _ E). intros [= <- _].
    destruct (startswith (strip text) (lit "{")) eqn:Hs.
    + unfold parse_body in E. rewrite Hs in E. unfold bind, lift in E.
      destruct (json_loads w text) as [e|data]; [discriminate|].
      eapply ProductData_init_gps; exact E.
    + rewrite (parse_body_regex w text st Hs) in E.
      destruct (str_field w name_re text); [|discriminate].
      injection E as <- _. reflexivity.
Qed.

Lemma _parse_with_llm_gps (ocr_text : str) (st st' : state) (pd : ProductData) :
  _parse_with_llm w ocr_text st = (inr pd, st') -> gps pd = None.
Proof.
  destruct (str_truthy (strip ocr_text)) eqn:H.
  - destruct (prompt_format w ocr_text) as [e|prompt] eqn:Hp.
    { rewrite (_parse_with_llm_prompt_raises w _ _ _ H Hp).
      intros [= <- _]. reflexivity. }
    destruct (llm w prompt) as [e|completion] eqn:Hc.
    { rewrite (_parse_with_llm_llm_raises w _ _ _ _ H Hp Hc).
      intros [= <- _]. reflexivity. }
    destruct (parse_total w completion (sent prompt st)) as (pd1 & st1 & Hparse).
    rewrite (_parse_with_llm_parsed w _ _ _ _ _ _ H Hp Hc Hparse).
    intros [= <- _]. simpl. eapply parse_gps; exact Hparse.
  - rewrite (_parse_with_llm_blank w _ _ H). intros [= <- _]. reflexivity.
Qed.

Lemma ocr_failure_extract (image_path : str) (called : option (list N))
    (st : state) :
  ocr_failure w image_path called ->
  _extract_text_with_vision_api w image_path st = (inr [], after_ocr called st).
Proof.
  unfold _extract_text_with_vision_api, try_except, bind, call_text_detection.
  intros [e He | content e Hr He | content response Hr Hs Hm
          | content response Hr Hs Hn].
  - rewrite He. reflexivity.
  - rewrite Hr. simpl. rewrite He. reflexivity.
  - rewrite Hr. simpl. rewrite Hs.
    destruct (resp_error_message response); [congruence|]. reflexivity.
  - rewrite Hr. simpl. rewrite Hs, Hn.
    destruct (str_truthy (resp_error_message response)); reflexivity.
Qed.
End AgentFacts2.

(** * Further properties *)

(** X1: when the image is decoded and one of the four enhancement steps
    (grey scale, contrast, denoising, sharpening) raises, the preprocessor
    does not raise: it returns the image as [imread] gives it. *)
Theorem enhancement_failure_returns_original (w : World) (image_path : str)
    (image : ndarray) (st : state) :
  cv2_imread w image_path = inr (Some image) ->
  enhancement_fails w image ->
  _preprocess_image w image_path st = (inr (Some image), st).
Proof.
  intros Hr H. unfold _preprocess_image, try_except, bind, lift, ret, raise.
  rewrite Hr.
  destruct H as [e H1 | gray e H1 H2 | gray enhanced e H1 H2 H3
                 | gray enhanced denoised e H1 H2 H3 H4].
  - rewrite H1. reflexivity.
  - rewrite H1, H2. reflexivity.
  - rewrite H1, H2, H3. reflexivity.
  - rewrite H1, H2, H3, H4. reflexivity.
Qed.

Lemma enhancement_failure_returns_original_witness :
  _preprocess_image clahe_failing_world (lit "tag.jpg") st0
  = (inr (Some white_frame), st0).
Proof.
  apply (enhancement_failure_returns_original clahe_failing_world
           (lit "tag.jpg") white_frame st0).
  - reflexivity.
  - apply (clahe_fails _ _ white_frame cv2_error); reflexivity.
Defined.

(** X2: the quality score is never above 1.0, whatever OpenCV and numpy
    measure (also when a measurement fails or is not a number), and the
    assessment neither raises nor touches the outside world. *)
Theorem quality_score_not_above_one (w : World) (image : option ndarray)
    (st : state) :
  exists q,
    _assess_image_quality w image st = (inr q, st) /\ (1 <? q)%float = false.
Proof. apply _assess_image_quality_bound. Qed.

(** X3: when the text extraction fails -- the file cannot be read, the
    vision service raises, it answers with an error message, or it finds
    no annotation -- the extractor returns the empty string and does not
    raise; the service is not called when the file cannot be read and is
    called once, with the bytes of the file, otherwise. *)
Theorem ocr_failure_gives_empty_text (w : World) (image_path : str)
    (called : option (list N)) (st : state) :
  ocr_failure w image_path called ->
  _extract_text_with_vision_api w image_path st = (inr [], after_ocr called st).
Proof. apply ocr_failure_extract. Qed.

Lemma ocr_failure_gives_empty_text_witness :
  _extract_text_with_vision_api clahe_failing_world (lit "gone.jpg") st0
  = (inr [], st0).
Proof.
  apply (ocr_failure_gives_empty_text clahe_failing_world (lit "gone.jpg") None st0).
  apply (unreadable _ _ (Exception "FileNotFoundError" [])). reflexivity.
Defined.

(** X4: when the file is read and the vision service answers without an
    error message, the extracted text is the description of the first
    annotation, and the service was called once with the bytes of the
    file. *)
Theorem ocr_text_is_first_annotation (w : World) (image_path : str)
    (content : list N) (response : vision_response) (description : str)
    (others : list str) (st : state) :
  read_bytes w image_path = inr content ->
  text_detection w content = inr response ->
  resp_error_message response = [] ->
  resp_text_annotations response = description :: others ->
  _extract_text_with_vision_api w image_path st
  = (inr description, seen content st).
Proof.
  intros Hr Hs Hm Ha.
  unfold _extract_text_with_vision_api, try_except, bind, call_text_detection.
  rewrite Hr. simpl. rewrite Hs, Hm, Ha. reflexivity.
Qed.

Lemma ocr_text_is_first_annotation_witness :
  _extract_text_with_vision_api white_world (lit "white.jpg") st0
  = (inr (lit "RICE 450"), seen [] st0).
Proof.
  apply (ocr_text_is_first_annotation white_world (lit "white.jpg") []
           {| resp_error_message := []; resp_text_annotations := [lit "RICE 450"] |}
           (lit "RICE 450") [] st0); reflexivity.
Defined.

(** X5: for an OCR text that is not blank and whose prompt renders, the
    language model is called exactly once, with the rendered prompt,
    whatever it answers and whatever the parser makes of the answer: there
    is no second attempt. *)
Theorem language_model_called_once (w : World) (ocr_text prompt : str)
    (st : state) :
  str_truthy (strip ocr_text) = true ->
  prompt_format w ocr_text = inr prompt ->
  exists pd st',
    _parse_with_llm w ocr_text st = (inr pd, st')
    /\ llm_calls st' = llm_calls st ++ [prompt].
Proof.
  intros H Hp. destruct (llm w prompt) as [e|completion] eqn:Hc.
  - rewrite (_parse_with_llm_llm_raises w _ _ _ _ H Hp Hc).
    eexists _, _. split; reflexivity.
  - destruct (parse_clock w completion (sent prompt st)) as (pd & st' & Hparse & _ & Hl).
    rewrite (_parse_with_llm_parsed w _ _ _ _ _ _ H Hp Hc Hparse).
    eexists _, _. split; [reflexivity | exact Hl].
Qed.

Lemma language_model_called_once_witness :
  exists pd st',
    _parse_with_llm white_world (lit "RICE 450") st0 = (inr pd, st')
    /\ llm_calls st' = llm_calls st0 ++ [lit "RICE 450"].
Proof.
  apply (language_model_called_once white_world (lit "RICE 450") (lit "RICE 450") st0);
    reflexivity.
Defined.

(** X6: a response that is a JSON object without the key product_name
    does not give a record of its own: the constructor raises inside
    [parse], and the result is the record named "Unknown Product" with the
    response as [raw_text]; the other keys of the object are lost. *)
Theorem json_without_product_name (w : World) (text : str)
    (data : gmap string pyvalue) (st : state) :
  startswith (strip text) (lit "{") = true ->
  json_loads w text = inr data ->
  data !! "product_name" = None ->
  exists ts st', parse w text st = (inr (unknown_product text ts), st').
Proof.
  intros Hs Hj Hn.
  assert (Hv : forall ts, validate_fields w data ts = None).
  { intros ts. unfold validate_fields. rewrite Hn. reflexivity. }
  assert (Hb : exists e st1, parse_body w text st = (inl e, st1)).
  { unfold parse_body. rewrite Hs.
    unfold bind, lift. rewrite Hj. unfold ret.
    unfold ProductData_init, bind, datetime_now, ret, raise.
    destruct (data !! "processing_timestamp") as [v|].
    - destruct (coerce_datetime w v) as [t|]; [rewrite Hv|]; eexists _, _; reflexivity.
    - rewrite Hv. eexists _, _. reflexivity. }
  destruct Hb as (e & st1 & Hb).
  rewrite (parse_handler w _ _ _ _ Hb). eexists _, _. reflexivity.
Qed.

Lemma json_without_product_name_witness :
  exists ts st',
    parse (json_world brand_only) brand_only_json st0
    = (inr (unknown_product brand_only_json ts), st').
Proof.
  apply (json_without_product_name (json_world brand_only) brand_only_json
           brand_only st0); reflexivity.
Defined.

(** X7: a response that is a JSON object with a string product_name and
    none of the other fields gives the record with that name and the
    defaults of the class: no brand, price, unit, shop or category,
    confidence 0.0 and the empty [raw_text]; keys that are not fields are
    ignored. *)
Theorem json_minimal_object (w : World) (text name : str)
    (data : gmap string pyvalue) (st : state) :
  startswith (strip text) (lit "{") = true ->
  json_loads w text = inr data ->
  data !! "product_name" = Some (VStr name) ->
  (forall k, In k other_fields -> data !! k = None) ->
  parse w text st = (inr (record3 name [] 0 (now w (clock st))), tick st).
Proof.
  intros Hs Hj Hn Ho. apply parse_returns.
  unfold parse_body, bind, lift, ProductData_init, datetime_now, ret, raise.
  rewrite Hs, Hj.
  rewrite (Ho "processing_timestamp") by (simpl; tauto).
  unfold validate_fields.
  rewrite Hn, (Ho "brand"), (Ho "price"), (Ho "unit"), (Ho "shop_name"),
    (Ho "category"), (Ho "confidence_score"), (Ho "raw_text")
    by (simpl; tauto).
  reflexivity.
Qed.

Lemma json_minimal_object_witness :
  parse (json_world name_and_note) name_and_note_json st0
  = (inr (record3 (lit "Milk") [] 0 0), tick st0).
Proof.
  apply (json_minimal_object (json_world name_and_note) name_and_note_json
           (lit "Milk") name_and_note st0);
    try reflexivity.
  intros k Hk. simpl in Hk.
  repeat (destruct Hk as [<- | Hk]; [reflexivity|]). destruct Hk.
Defined.

(** X8: whenever the price pattern matches, its group is a numeral that
    [float] accepts: the price branch of the regular-expression path never
    raises. *)
Theorem price_group_is_numeral (w : World) (text : str) (g : option str) :
  search w price_re text = Some g ->
  exists t f, g = Some t /\ float_of_str (py_decimal w) t = Some f.
Proof.
  intros E.
  destruct (search_group w price_re _ text g eq_refl E) as (t & gi & go & -> & Ht).
  destruct (float_of_str_numeral _ _ _ _ _ Ht) as [f Hf]. eauto.
Qed.

Lemma price_group_is_numeral_witness :
  exists t f,
    Some (lit "12.") = Some t
    /\ float_of_str (py_decimal (answering (inr []))) t = Some f.
Proof.
  apply (price_group_is_numeral (answering (inr [])) (lit "PRICE : 12.kg")).
  vm_compute. reflexivity.
Defined.

(** X9: a text field (product name, brand, unit, shop name) found by the
    regular-expression path comes from the response: somewhere the
    response reads its label, in any mix of upper and lower case, then one
    or more colons or white-space characters, then a value with no line
    break in it; the field is that value stripped. *)
Theorem text_field_comes_from_label (w : World) (f : text_field)
    (text v : str) :
  str_field w (pattern_of f) text = Some v ->
  exists pre lab sep value post,
    text = pre ++ lab ++ sep ++ value ++ post
    /\ label_of f lab
    /\ sep <> [] /\ forallb (cset_match (py_decimal w) true sep_set) sep = true
    /\ value <> [] /\ forallb (cset_match (py_decimal w) true line_set) value = true
    /\ v = strip value.
Proof.
  destruct f; simpl; intros H.
  - apply name_field_sound in H
      as (pre & lab1 & c & lab2 & sep & value & post & -> & H1 & Hc & H2 & H).
    exists pre, (lab1 ++ c :: lab2), sep, value, post.
    split; [rewrite <- app_assoc; reflexivity|].
    split; [exists lab1, c, lab2; auto | exact H].
  - apply brand_field_sound in H. exact H.
  - apply unit_field_sound in H. exact H.
  - apply shop_field_sound in H
      as (pre & lab1 & c & lab2 & sep & value & post & -> & H1 & Hc & H2 & H).
    exists pre, (lab1 ++ c :: lab2), sep, value, post.
    split; [rewrite <- app_assoc; reflexivity|].
    split; [exists lab1, c, lab2; auto | exact H].
Qed.

Lemma text_field_comes_from_label_witness :
  exists pre lab sep value post,
    lit "Our BRAND:: Anchor " = pre ++ lab ++ sep ++ value ++ post
    /\ label_of FBrand lab
    /\ sep <> [] /\ forallb (cset_match ascii_decimal true sep_set) sep = true
    /\ value <> [] /\ forallb (cset_match ascii_decimal true line_set) value = true
    /\ lit "Anchor" = strip value.
Proof.
  apply (text_field_comes_from_label (answering (inr [])) FBrand
           (lit "Our BRAND:: Anchor ") (lit "Anchor")).
  vm_compute. reflexivity.
Defined.

(** X10: conversely, when the response reads a label of a text field (in
    any case), a separator of colons and white space and a value that runs
    to the end of its line, and the pattern of the field matches nowhere
    before that label, the field is the value stripped. *)
Theorem first_labelled_line_gives_field (w : World) (f : text_field)
    (pre lab sep value rest : str) :
  label_of f lab ->
  sep_value (py_decimal w) sep value rest ->
  no_match_before w (pattern_of f) (pre ++ lab ++ sep ++ value ++ rest) (length pre) ->
  str_field w (pattern_of f) (pre ++ lab ++ sep ++ value ++ rest)
  = Some (strip value).
Proof.
  destruct f; simpl; intros Hl Hsv Hno.
  - destruct Hl as (lab1 & c & lab2 & -> & H1 & Hc & H2).
    rewrite <- app_assoc in *. simpl in *. apply name_of_line; assumption.
  - apply brand_of_line; assumption.
  - apply unit_of_line; assumption.
  - destruct Hl as (lab1 & c & lab2 & -> & H1 & Hc & H2).
    rewrite <- app_assoc in *. simpl in *. apply shop_of_line; assumption.
Qed.

Lemma first_labelled_line_gives_field_witness :
  str_field (answering (inr [])) unit_re
    (lit "ok " ++ lit "UNIT" ++ [58; 9] ++ lit "kg " ++ [10; 120])
  = Some (lit "kg").
Proof.
  apply (first_labelled_line_gives_field (answering (inr [])) FUnit
           (lit "ok ") (lit "UNIT") [58; 9] (lit "kg ") [10; 120]).
  - repeat constructor.
  - repeat split; try reflexivity; discriminate.
  - intros j Hj. do 3 (destruct j as [|j]; [vm_compute; reflexivity|]).
    simpl in Hj. lia.
Defined.

(** X11: the records the structured extractor leaves when it has nothing
    -- "No text detected" for a blank text, "Parsing failed" and "Unknown
    Product" when the extraction fails -- are never accepted by
    [validate_product_data]: their confidence is below the threshold. *)
Theorem failure_records_are_rejected (w : World) (ocr_text name : str)
    (st : state) :
  str_truthy (strip ocr_text) = false \/ extraction_failure w ocr_text st name ->
  exists pd st',
    _parse_with_llm w ocr_text st = (inr pd, st')
    /\ fst (validate_product_data pd) = false.
Proof.
  intros H. destruct (str_truthy (strip ocr_text)) eqn:Hne.
  - destruct H as [H|H]; [discriminate|].
    destruct H as [e He | prompt e Hp He | prompt completion e st1 Hp Hc Hb].
    + rewrite (_parse_with_llm_prompt_raises w _ _ _ Hne He).
      eexists _, _. split; reflexivity.
    + rewrite (_parse_with_llm_llm_raises w _ _ _ _ Hne Hp He).
      eexists _, _. split; reflexivity.
    + rewrite (_parse_with_llm_parsed w _ _ _ _ _ _ Hne Hp Hc
                 (parse_handler w _ _ _ _ Hb)).
      eexists _, _. split; reflexivity.
  - rewrite (_parse_with_llm_blank w _ _ Hne). eexists _, _. split; reflexivity.
Qed.

Lemma failure_records_are_rejected_witness :
  exists pd st',
    _parse_with_llm (answering (inr (lit "hello"))) (lit "abc") st0 = (inr pd, st')
    /\ fst (validate_product_data pd) = false.
Proof.
  apply (failure_records_are_rejected (answering (inr (lit "hello"))) (lit "abc")
           (lit "Unknown Product") st0).
  right.
  apply (parser_raises _ _ _ (lit "abc") (lit "hello") ValidationError
           (tick (sent (lit "abc") st0))); reflexivity.
Defined.

(** X12: [validate_product_data] accepts a record exactly when its
    product name has a character that is not white space, its confidence
    is not below 0.3 and its price, when there is one, is neither below 1
    nor above 100000. A name of white space only is rejected like the
    empty name. *)
Theorem validator_accepts_iff (pd : ProductData) :
  fst (validate_product_data pd) = true <-> acceptable pd.
Proof.
  unfold validate_product_data, obj_bind, getattr, obj_ret, acceptable.
  assert (Hname : negb (str_truthy (product_name pd))
                  || bool_decide (strip (product_name pd) = [])
                  = forallb isspace (product_name pd)).
  { destruct (forallb isspace (product_name pd)) eqn:E.
    - apply strip_nil_iff in E. rewrite E. apply orb_true_r.
    - apply orb_false_iff. split.
      + destruct (product_name pd); [discriminate E | reflexivity].
      + apply bool_decide_eq_false. intros H. apply strip_nil_iff in H. congruence. }
  rewrite Hname.
  destruct (forallb isspace (product_name pd)); simpl;
    [split; [discriminate | intros [? _]; discriminate]|].
  destruct (confidence_score pd <? 0.3)%float; simpl;
    [split; [discriminate | intros (_ & ? & _); discriminate]|].
  destruct (price pd) as [x|]; simpl; [|tauto].
  destruct (x <? 1)%float; simpl;
    [split; [discriminate | intros (_ & _ & ? & _); discriminate]|].
  destruct (100000 <? x)%float; simpl;
    [split; [discriminate | intros (_ & _ & _ & ?); discriminate]|].
  tauto.
Qed.

(** X13: when [imread] returns -- an image, or [None] for a file it
    cannot decode --, [process_image] absorbs every failure of its stages.
    Whatever the enhancement steps, the measurements, the vision service
    and the language model do, as long as the clock readings of the run
    give an elapsed time, the result reports success with no error
    message, carries a product record with exactly the GPS pair of the
    caller (none when none was given), and a quality score that is not
    above 1.0. *)
Theorem process_image_reports_success (w : World) (image_path : str)
    (read : option ndarray) (gps_coords : option (float * float))
    (metadata : option (gmap string pyvalue)) (st : state) :
  cv2_imread w image_path = inr read ->
  clock_in_range w st ->
  exists r st' pd q,
    process_image w image_path gps_coords metadata st = (inr r, st')
    /\ success r = true /\ error_message r = None
    /\ product_data r = Some pd /\ gps pd = gps_coords
    /\ image_quality_score r = Some q /\ (1 <? q)%float = false.
Proof.
  intros Hread Hrange.
  destruct (_preprocess_image_total w image_path read (tick st) Hread) as [img H1].
  destruct (_assess_image_quality_bound w img (tick st)) as (q & H2 & Hq).
  destruct (_extract_text_state w image_path (tick st)) as (ocr & st2 & H3 & Hc2 & _).
  destruct (_parse_with_llm_clock w ocr st2) as (pd & st3 & H4 & Hc3).
  assert (Hfin : elapsed_finite (now w (clock st)) (now w (clock st3))).
  { simpl in Hc2.
    replace (clock st3) with (clock st + (clock st3 - clock st))%nat by lia.
    apply Hrange. lia. }
  destruct (elapsed_ms_finite w _ _ Hfin) as [ms H5].
  rewrite (process_image_steps w image_path gps_coords metadata st st2 st3 _
             img q ocr pd ms H1 H2 H3 H4 H5).
  pose proof (_parse_with_llm_gps w _ _ _ _ H4) as Hg.
  eexists _, _, _, q. split; [reflexivity|]. simpl.
  repeat split; try assumption.
  destruct gps_coords; [reflexivity|].
  destruct (0 <? confidence_score pd)%float; simpl; assumption.
Qed.

Lemma process_image_reports_success_witness :
  exists r st' pd q,
    process_image clahe_failing_world (lit "tag.jpg")
      (Some (6.9271, 79.8612)%float) None st0 = (inr r, st')
    /\ success r = true /\ error_message r = None
    /\ product_data r = Some pd /\ gps pd = Some (6.9271, 79.8612)%float
    /\ image_quality_score r = Some q /\ (1 <? q)%float = false.
Proof.
  apply (process_image_reports_success clahe_failing_world (lit "tag.jpg")
           (Some white_frame) (Some (6.9271, 79.8612)%float) None st0).
  - reflexivity.
  - intros k Hk. unfold elapsed_finite.
    destruct k as [|[|[|[|k]]]]; try lia; vm_compute; eexists; reflexivity.
Defined.

(** X14: when [imread] returns and the text extraction fails, the run
    still reports success: the product record is "No text detected" with
    the empty [raw_text] and confidence 0.0, which the quality score does
    not change, and the language model is not called. *)
Theorem ocr_failure_run (w : World) (image_path : str)
    (read : option ndarray) (gps_coords : option (float * float))
    (metadata : option (gmap string pyvalue)) (called : option (list N))
    (st : state) :
  cv2_imread w image_path = inr read ->
  clock_in_range w st ->
  ocr_failure w image_path called ->
  exists r st' pd,
    process_image w image_path gps_coords metadata st = (inr r, st')
    /\ success r = true
    /\ product_data r = Some pd
    /\ product_name pd = lit "No text detected"
    /\ raw_text pd = []
    /\ confidence_score pd = 0%float
    /\ llm_calls st' = llm_calls st.
Proof.
  intros Hread Hrange Hocr.
  destruct (_preprocess_image_total w image_path read (tick st) Hread) as [img H1].
  destruct (_assess_image_quality_bound w img (tick st)) as (q & H2 & Hq).
  pose proof (ocr_failure_extract w image_path called (tick st) Hocr) as H3.
  pose proof (_parse_with_llm_blank w [] (after_ocr called (tick st)) eq_refl) as H4.
  assert (Hclock : clock (tick (after_ocr called (tick st))) = (clock st + 2)%nat).
  { destruct called; simpl; lia. }
  assert (Hfin : elapsed_finite (now w (clock st))
                   (now w (clock (tick (after_ocr called (tick st)))))).
  { rewrite Hclock. apply Hrange. lia. }
  destruct (elapsed_ms_finite w _ _ Hfin) as [ms H5].
  rewrite (process_image_steps w image_path gps_coords metadata st _ _ _
             img q [] _ ms H1 H2 H3 H4 H5).
  eexists _, _, _. split; [reflexivity|]. simpl.
  repeat split; destruct gps_coords, called; reflexivity.
Qed.

Lemma ocr_failure_run_witness :
  exists r st' pd,
    process_image clahe_failing_world (lit "gone.jpg") None None st0 = (inr r, st')
    /\ success r = true
    /\ product_data r = Some pd
    /\ product_name pd = lit "No text detected"
    /\ raw_text pd = []
    /\ confidence_score pd = 0%float
    /\ llm_calls st' = llm_calls st0.
Proof.
  apply (ocr_failure_run clahe_failing_world (lit "gone.jpg") (Some white_frame)
           None None None st0).
  - reflexivity.
  - intros k Hk. unfold elapsed_finite.
    destruct k as [|[|[|[|k]]]]; try lia; vm_compute; eexists; reflexivity.
  - apply (unreadable _ _ (Exception "FileNotFoundError" [])). reflexivity.
Defined.

(** X27: the one stage whose failure [process_image] reports. When
    [imread] raises, the handler of the preprocessor reads the file again
    outside every [try], the exception leaves the preprocessor, and the
    run ends with success false, the text of that exception as error
    message, no product record and no quality score; neither the vision
    service nor the language model is called. *)
Theorem imread_exception_reports_failure (w : World) (image_path : str)
    (e : exn) (gps_coords : option (float * float))
    (metadata : option (gmap string pyvalue)) (st : state) :
  cv2_imread w image_path = inl e ->
  clock_in_range w st ->
  exists ms,
    process_image w image_path gps_coords metadata st
    = (inr {| success := false; product_data := None;
              error_message := Some (exn_msg e); processing_time_ms := ms;
              image_quality_score := None |},
       tick (tick st)).
Proof.
  intros Hread Hrange.
  pose proof (_preprocess_image_raises w image_path e (tick st) Hread) as H1.
  assert (Hfin : elapsed_finite (now w (clock st)) (now w (clock (tick st)))).
  { simpl. replace (S (clock st)) with (clock st + 1)%nat by lia.
    apply Hrange. lia. }
  destruct (elapsed_ms_finite w _ _ Hfin) as [ms H5].
  exists ms. unfold process_image, bind at 1, datetime_now, try_except.
  unfold bind. rewrite H1, H5. reflexivity.
Qed.

Lemma imread_exception_reports_failure_witness :
  exists ms,
    process_image imread_raising_world (lit "huge.jpg") None None st0
    = (inr {| success := false; product_data := None;
              error_message := Some (lit "Failed to allocate memory for the image");
              processing_time_ms := ms; image_quality_score := None |},
       tick (tick st0)).
Proof.
  apply (imread_exception_reports_failure imread_raising_world (lit "huge.jpg")
           imread_error None None st0).
  - reflexivity.
  - intros k Hk. unfold elapsed_finite.
    destruct k as [|[|[|[|k]]]]; try lia; vm_compute; eexists; reflexivity.
Defined.

(** * The settings *)












Lemma split_on_piece (sep : N) (piece : str) (rest : str) :
  ~ In sep piece ->
  split_on sep (piece ++ sep :: rest) = piece :: split_on sep rest.
Proof.
  induction piece as [|x piece IH]; simpl; intros Hn.
  - rewrite N.eqb_refl. reflexivity.
  - destruct (N.eqb_spec x sep) as [->|NE]; [tauto|].
    rewrite IH by tauto. reflexivity.
Qed.

Lemma split_on_single (sep : N) (piece : str) :
  ~ In sep piece -> split_on sep piece = [piece].
Proof.
  induction piece as [|x piece IH]; simpl; intros Hn; [reflexivity|].
  destruct (N.eqb_spec x sep) as [->|NE]; [tauto|].
  rewrite IH by tauto. reflexivity.
Qed.

Lemma split_on_join (i : str) (l : list str) :
  Forall (fun i => ~ In comma i) (i :: l) ->
  split_on comma (join_comma (i :: l)) = i :: l.
Proof.
  revert i. induction l as [|j l IH]; intros i H; inversion H; subst.
  - simpl. apply split_on_single. assumption.
  - change (join_comma (i :: j :: l)) with (i ++ comma :: join_comma (j :: l)).
    rewrite split_on_piece by assumption. rewrite IH by assumption. reflexivity.
Qed.


(** X16: a list of origins written with commas between them is read back
    as it was: for a list that is not empty, whose origins contain no comma
    and have no white space at their ends, [assemble_cors_origins] of the
    joined string gives the list. *)
Theorem cors_origins_round_trip (origins : list str) :
  origins <> [] ->
  Forall (fun i => ~ In comma i /\ strip i = i) origins ->
  assemble_cors_origins (VStr (join_comma origins)) = VList (map VStr origins).
Proof.
  intros Hne H. destruct origins as [|i l]; [congruence|].
  unfold assemble_cors_origins. rewrite split_on_join.
  - f_equal. apply map_ext_Forall.
    eapply Forall_impl; [exact H|].
    intros j [_ Hj]. simpl. rewrite Hj. reflexivity.
  - eapply Forall_impl; [exact H|]. intros j [Hj _]. exact Hj.
Qed.

Lemma cors_origins_round_trip_witness :
  assemble_cors_origins
    (VStr (join_comma [lit "http://localhost:3000"; lit "exp://localhost:19000"]))
  = VList (map VStr [lit "http://localhost:3000"; lit "exp://localhost:19000"]).
Proof.
  apply (cors_origins_round_trip
           [lit "http://localhost:3000"; lit "exp://localhost:19000"]).
  - discriminate.
  - repeat constructor; try reflexivity;
      (intros H; vm_compute in H; repeat (destruct H as [H|H]; [discriminate H|]);
       exact H).
Defined.

(** * The database URL and the engine *)





(** * The upload endpoints *)

Section RouterFacts.
Variable w : World.
Variable h : Host.
Variable settings : Settings.

Lemma process_image_cases (image_path : str) (gps_coords : option (float * float))
    (metadata : option (gmap string pyvalue)) (st st' : state)
    (r : ProcessingResult) :
  process_image w image_path gps_coords metadata st = (inr r, st') ->
  (success r = true /\ exists pd, product_data r = Some pd /\ gps pd = gps_coords)
  \/ (success r = false /\ product_data r = None).
Proof.
  destruct (cv2_imread w image_path) as [e|read] eqn:Hread.
  { pose proof (_preprocess_image_raises w image_path e (tick st) Hread) as H1.
    unfold process_image, bind at 1, datetime_now, try_except.
    unfold bind. rewrite H1.
    destruct (elapsed_ms w (now w (clock st)) (tick st)) as [[e'|ms'] st5];
      [discriminate|].
    intros [= <- _]. right. split; reflexivity. }
  destruct (_preprocess_image_total w image_path read (tick st) Hread) as [img H1].
  destruct (_assess_image_quality_bound w img (tick st)) as (q & H2 & Hq).
  destruct (_extract_text_state w image_path (tick st)) as (ocr & st2 & H3 & _).
  destruct (_parse_with_llm_clock w ocr st2) as (pd & st3 & H4 & _).
  pose proof (_parse_with_llm_gps w _ _ _ _ H4) as Hg.
  destruct (elapsed_ms w (now w (clock st)) st3) as [[e|ms] st4] eqn:H5.
  - unfold process_image, bind at 1, datetime_now, try_except.
    unfold bind. rewrite H1, H2, H3, H4, H5.
    destruct (elapsed_ms w (now w (clock st)) st4) as [[e'|ms'] st5];
      [discriminate|].
    intros [= <- _]. right. split; reflexivity.
  - rewrite (process_image_steps w image_path gps_coords metadata st st2 st3 st4
               img q ocr pd ms H1 H2 H3 H4 H5).
    intros [= <- _]. left. split; [reflexivity|]. eexists. split; [reflexivity|].
    destruct gps_coords; [reflexivity|].
    destruct (0 <? confidence_score pd)%float; simpl; assumption.
Qed.

Lemma refused_body (image : UploadFile) (lat lon : option float)
    (scout shop : option str) (detail : str) (st : rstate) :
  upload_refused h settings image detail ->
  process_scout_image_body w h settings image lat lon scout shop st
  = (inl (HTTPException 400 detail), st).
Proof.
  unfold process_scout_image_body, rbind, rret, rraise, rlift.
  intros [ct Hc Hs | ct contents Hc Hs Hb Hl | ct contents name Hc Hs Hb Hl Hn He].
  - rewrite Hc, Hs. reflexivity.
  - rewrite Hc, Hs, Hb. simpl.
    apply Z.ltb_lt in Hl. rewrite Hl. reflexivity.
  - rewrite Hc, Hs, Hb. simpl.
    apply Z.ltb_ge in Hl. rewrite Hl, Hn.
    rewrite bool_decide_eq_false_2 by exact He. reflexivity.
Qed.

(** The path under which an accepted upload is stored. *)
Lemma body_inr (image : UploadFile) (lat lon : option float)
    (scout shop : option str) (st st' : rstate) (r : ProcessingResult) :
  process_scout_image_body w h settings image lat lon scout shop st = (inr r, st') ->
  exists ct contents name md s',
    content_type image = Some ct /\ startswith ct (lit "image/") = true
    /\ file_body image = inr contents
    /\ (Z.of_nat (length contents) <= MAX_FILE_SIZE settings)%Z
    /\ filename image = Some name
    /\ str_lower h (path_suffix h name) ∈ ALLOWED_EXTENSIONS settings
    /\ process_image w (stored_path h settings (uuids st) name)
         (both lat lon) (Some md) (tick (agent_state st)) = (inr r, s')
    /\ st' = {| agent_state := s'; uuids := S (uuids st);
                files := files st ++ [(stored_path h settings (uuids st) name, contents)];
                tasks := tasks st ++ scheduled r (stored_path h settings (uuids st) name)
                                       (both lat lon) scout |}.
Proof.
  unfold process_scout_image_body, rbind, rret, rraise, rlift.
  destruct (content_type image) as [ct|]; [|discriminate].
  destruct (startswith ct (lit "image/")) eqn:Hs; simpl; [|discriminate].
  destruct (file_body image) as [e|contents]; [discriminate|]. simpl.
  destruct (MAX_FILE_SIZE settings <? Z.of_nat (length contents))%Z eqn:Hl;
    [discriminate|].
  destruct (filename image) as [name|]; [|discriminate].
  destruct (bool_decide (str_lower h (path_suffix h name) ∈ ALLOWED_EXTENSIONS settings))
    eqn:He; simpl; [|discriminate].
  unfold next_uuid, save_file, agent, datetime_now.
  fold (stored_path h settings (uuids st) name). fold (both lat lon).
  destruct (mkdir_parent h (stored_path h settings (uuids st) name)) as [e|[]];
    [discriminate|]. simpl.
  destruct (write_bytes h (stored_path h settings (uuids st) name) contents) as [e|[]];
    [discriminate|]. simpl.
  match goal with |- context [process_image w ?p ?g (Some ?m) ?s] =>
    destruct (process_image w p g (Some m) s) as [[e|res] s'] eqn:Hpi; set (md := m) in *
  end; [discriminate|].
  intros H. exists ct, contents, name, md, s'.
  apply Z.ltb_ge in Hl. apply bool_decide_eq_true in He.
  repeat (split; [first [reflexivity | assumption]|]).
  revert H. unfold add_task.
  destruct (product_data res) as [pd|] eqn:Hpd; [destruct (success res) eqn:Hsu|];
    simpl; intros [= <- <-]; unfold scheduled; rewrite ?Hpd, ?Hsu, ?app_nil_r; auto.
Qed.

Lemma body_inl (image : UploadFile) (lat lon : option float)
    (scout shop : option str) (st st' : rstate) (e : rexn) :
  process_scout_image_body w h settings image lat lon scout shop st = (inl e, st') ->
  (exists detail, upload_refused h settings image detail
                  /\ e = HTTPException 400 detail /\ st' = st)
  \/ (exists x, e = Raised x).
Proof.
  unfold process_scout_image_body, rbind, rret, rraise, rlift.
  destruct (content_type image) as [ct|] eqn:Hct;
    [|intros [= <- _]; right; eauto].
  destruct (startswith ct (lit "image/")) eqn:Hs; simpl;
    [|intros [= <- <-]; left; eexists; split; [eapply not_an_image; eauto|auto]].
  destruct (file_body image) as [x|contents] eqn:Hb;
    [intros [= <- _]; right; eauto|]. simpl.
  destruct (MAX_FILE_SIZE settings <? Z.of_nat (length contents))%Z eqn:Hl.
  { apply Z.ltb_lt in Hl. intros [= <- <-]. left. eexists. split; [|auto].
    eapply too_large; eauto. }
  apply Z.ltb_ge in Hl.
  destruct (filename image) as [name|] eqn:Hn; [|intros [= <- _]; right; eauto].
  destruct (bool_decide (str_lower h (path_suffix h name) ∈ ALLOWED_EXTENSIONS settings))
    eqn:He; simpl.
  2:{ apply bool_decide_eq_false in He. intros [= <- <-]. left. eexists.
      split; [|auto]. eapply bad_extension; eauto. }
  unfold next_uuid, save_file, agent, datetime_now.
  fold (stored_path h settings (uuids st) name). fold (both lat lon).
  destruct (mkdir_parent h (stored_path h settings (uuids st) name)) as [x|[]];
    [intros [= <- _]; right; eauto|]. simpl.
  destruct (write_bytes h (stored_path h settings (uuids st) name) contents) as [x|[]];
    [intros [= <- _]; right; eauto|]. simpl.
  match goal with |- context [process_image w ?p ?g (Some ?m) ?s] =>
    destruct (process_image w p g (Some m) s) as [[x|res] s'']
  end; [intros [= <- _]; right; eauto|].
  unfold add_task.
  destruct (product_data res); [destruct (success res)|]; simpl; discriminate.
Qed.

(** One turn of the batch loop returns an entry for its image, and the
    files only grow. *)
Lemma batch_one_entry (image : UploadFile) (st : rstate) :
  exists entry st' added,
    batch_one w h settings image st = (inr entry, st')
    /\ entry_filename entry = filename image
    /\ files st' = files st ++ added
    /\ (forall contents name,
          file_body image = inr contents -> filename image = Some name ->
          mkdir_parent h (batch_path h settings (uuids st) name) = inr tt ->
          write_bytes h (batch_path h settings (uuids st) name) contents = inr tt ->
          added = [(batch_path h settings (uuids st) name, contents)]).
Proof.
  unfold batch_one, rbind, rret, rraise, rlift.
  destruct (file_body image) as [x|contents]; simpl.
  { exists {| entry_filename := filename image; entry_outcome := inl (exn_msg x) |},
      st, []. rewrite app_nil_r. repeat split; auto. discriminate. }
  destruct (filename image) as [name|]; simpl.
  2:{ eexists _, st, []. rewrite app_nil_r. repeat split; auto. discriminate. }
  unfold next_uuid, save_file, agent. fold (batch_path h settings (uuids st) name).
  destruct (mkdir_parent h (batch_path h settings (uuids st) name)) as [x|[]] eqn:Hm;
    simpl.
  { eexists _, _, []. rewrite app_nil_r. repeat split; simpl; auto.
    intros c n [= <-] [= <-] H. congruence. }
  destruct (write_bytes h (batch_path h settings (uuids st) name) contents) as [x|[]]
    eqn:Hw; simpl.
  { eexists _, _, []. rewrite app_nil_r. repeat split; simpl; auto.
    intros c n [= <-] [= <-] _ H. congruence. }
  destruct (process_image w (batch_path h settings (uuids st) name) None None
              (agent_state st)) as [[x|res] s'];
    (eexists _, _, [_]; repeat split; simpl; auto;
     intros c n [= <-] [= <-] _ _; reflexivity).
Qed.

Lemma batch_loop_entries (images : list UploadFile) :
  forall (results : list batch_entry) (st : rstate),
  exists rs st' added,
    batch_loop w h settings images results st = (inr (results ++ rs), st')
    /\ map entry_filename rs = map filename images
    /\ files st' = files st ++ added.
Proof.
  induction images as [|image rest IH]; intros results st; simpl.
  - exists [], st, []. rewrite !app_nil_r. auto.
  - unfold rbind.
    destruct (batch_one_entry image st) as (entry & st1 & a1 & -> & Hf & Ha & _).
    destruct (IH (results ++ [entry]) st1) as (rs & st' & a2 & -> & Hm & Ha2).
    exists (entry :: rs), st', (a1 ++ a2). rewrite <- app_assoc. simpl.
    rewrite Hf, Hm, Ha2, Ha, <- app_assoc. auto.
Qed.
End RouterFacts.

Lemma batch_loop_stores (w : World) (h : Host) (settings : Settings)
    (images : list UploadFile) :
  (forall p, mkdir_parent h p = inr tt) ->
  (forall p c, write_bytes h p c = inr tt) ->
  forall (results rs : list batch_entry) (st st' : rstate),
  batch_loop w h settings images results st = (inr rs, st') ->
  forall image contents name,
    image ∈ images -> file_body image = inr contents ->
    filename image = Some name ->
    exists n, (batch_path h settings n name, contents) ∈ files st'.
Proof.
  intros Hm Hw. induction images as [|image0 rest IH];
    intros results rs st st' Hrun image contents name Hin Hb Hn.
  - inversion Hin.
  - simpl in Hrun. unfold rbind in Hrun.
    destruct (batch_one_entry w h settings image0 st)
      as (entry & st1 & a1 & H1 & _ & Hf1 & Hadd).
    rewrite H1 in Hrun.
    apply elem_of_cons in Hin as [->|Hin].
    + destruct (batch_loop_entries w h settings rest (results ++ [entry]) st1)
        as (rs' & st2 & a2 & H2 & _ & Hf2).
      rewrite H2 in Hrun. injection Hrun as _ <-.
      exists (uuids st). rewrite Hf2, Hf1, (Hadd contents name); auto.
      apply elem_of_app. left. apply elem_of_app. right. apply list_elem_of_here.
    + eapply IH; eauto.
Qed.

(** ** The upload endpoint *)

(** X18: an upload that fails one of the three checks of
    [process_scout_image] (declared type, size, extension) is answered
    with HTTP 400 and the detail of the failed check, and the server is
    left as it was: no identifier drawn, no file written, the agent not
    run, no task scheduled. *)
Theorem refused_upload_gets_400 (w : World) (h : Host) (settings : Settings)
    (image : UploadFile) (lat lon : option float) (scout shop : option str)
    (st : rstate) (detail : str) :
  upload_refused h settings image detail ->
  process_scout_image w h settings image lat lon scout shop st
  = (inl (HTTPException 400 detail), st).
Proof.
  intros H. unfold process_scout_image.
  erewrite refused_body by exact H.
  reflexivity.
Qed.

Lemma refused_upload_gets_400_witness :
  process_scout_image clahe_failing_world test_host default_settings
    (upload "image/png" "notes.TXT" [1; 2; 3]%N) None None None None rst0
  = (inl (HTTPException 400 (lit "File extension .TXT not allowed")), rst0).
Proof.
  apply (refused_upload_gets_400 clahe_failing_world test_host default_settings
           (upload "image/png" "notes.TXT" [1; 2; 3]%N) None None None None rst0
           (lit "File extension .TXT not allowed")).
  apply (bad_extension test_host default_settings
           (upload "image/png" "notes.TXT" [1; 2; 3]%N)
           (lit "image/png") [1; 2; 3]%N (lit "notes.TXT"));
    try reflexivity.
  - vm_compute. discriminate.
  - assert (Hd : bool_decide
                   (str_lower test_host (path_suffix test_host (lit "notes.TXT"))
                    ∈ ALLOWED_EXTENSIONS default_settings) = false)
      by (vm_compute; reflexivity).
    apply bool_decide_eq_false in Hd. exact Hd.
Defined.

(** X19: an upload whose part carries no content type is not answered
    with HTTP 400: the attribute access on [None] raises, the handler
    turns it into HTTP 500 with the fixed detail, and nothing is read or
    stored. *)
Theorem missing_content_type_gets_500 (w : World) (h : Host)
    (settings : Settings) (image : UploadFile) (lat lon : option float)
    (scout shop : option str) (st : rstate) :
  content_type image = None ->
  process_scout_image w h settings image lat lon scout shop st
  = (inl (HTTPException 500 (lit "Internal server error processing image")), st).
Proof.
  intros H. unfold process_scout_image, process_scout_image_body, rbind, rraise.
  rewrite H. reflexivity.
Qed.

Lemma missing_content_type_gets_500_witness :
  process_scout_image clahe_failing_world test_host default_settings
    {| content_type := None; filename := Some (lit "tag.jpg");
       file_body := inr [1; 2; 3]%N |} None None None None rst0
  = (inl (HTTPException 500 (lit "Internal server error processing image")), rst0).
Proof.
  apply (missing_content_type_gets_500 clahe_failing_world test_host
           default_settings
           {| content_type := None; filename := Some (lit "tag.jpg");
              file_body := inr [1; 2; 3]%N |} None None None None rst0).
  reflexivity.
Defined.

(** X20: the errors of [process_scout_image] are of two kinds only. An
    HTTP 400 is raised exactly for a failed check, with the detail of
    that check and the server unchanged; every other exception, whatever
    it is, leaves as HTTP 500 with the one fixed detail. *)
Theorem upload_errors_are_400_or_500 (w : World) (h : Host)
    (settings : Settings) (image : UploadFile) (lat lon : option float)
    (scout shop : option str) (st st' : rstate) (e : rexn) :
  process_scout_image w h settings image lat lon scout shop st = (inl e, st') ->
  (exists detail, upload_refused h settings image detail
                  /\ e = HTTPException 400 detail /\ st' = st)
  \/ e = HTTPException 500 (lit "Internal server error processing image").
Proof.
  unfold process_scout_image.
  destruct (process_scout_image_body w h settings image lat lon scout shop st)
    as [[e0|r] st0'] eqn:Hb; [|discriminate].
  destruct (body_inl w h settings image lat lon scout shop st st0' e0 Hb)
    as [(d & Hr & -> & ->)|(x & ->)].
  - intros [= <- <-]. left. eauto.
  - intros [= <- _]. right. reflexivity.
Qed.

Lemma upload_errors_are_400_or_500_witness :
  (exists detail,
     upload_refused test_host default_settings
       (upload "text/plain" "tag.jpg" [1; 2; 3]%N) detail
     /\ HTTPException 400 (lit "File must be an image") = HTTPException 400 detail
     /\ rst0 = rst0)
  \/ HTTPException 400 (lit "File must be an image")
     = HTTPException 500 (lit "Internal server error processing image").
Proof.
  apply (upload_errors_are_400_or_500 clahe_failing_world test_host
           default_settings (upload "text/plain" "tag.jpg" [1; 2; 3]%N)
           None None None None rst0 rst0
           (HTTPException 400 (lit "File must be an image"))).
  vm_compute. reflexivity.
Defined.

(** X21: when [process_scout_image] returns a result, the upload passed
    the three checks, exactly one identifier was drawn, and exactly one
    file was written: the bytes read, under the upload directory, in
    "scout_images", named by the identifier followed by the suffix of the
    client's file name as the client wrote it. *)
Theorem accepted_upload_is_stored (w : World) (h : Host) (settings : Settings)
    (image : UploadFile) (lat lon : option float) (scout shop : option str)
    (st st' : rstate) (r : ProcessingResult) :
  process_scout_image w h settings image lat lon scout shop st = (inr r, st') ->
  exists ct contents name,
    content_type image = Some ct /\ startswith ct (lit "image/") = true
    /\ file_body image = inr contents
    /\ (Z.of_nat (length contents) <= MAX_FILE_SIZE settings)%Z
    /\ filename image = Some name
    /\ str_lower h (path_suffix h name) ∈ ALLOWED_EXTENSIONS settings
    /\ uuids st' = S (uuids st)
    /\ files st'
       = files st ++ [(stored_path h settings (uuids st) name, contents)].
Proof.
  unfold process_scout_image.
  destruct (process_scout_image_body w h settings image lat lon scout shop st)
    as [[[c d|x]|r0] st0'] eqn:Hb; try discriminate.
  intros [= <- <-].
  destruct (body_inr w h settings image lat lon scout shop st st0' r0 Hb)
    as (ct & contents & name & md & s' & Hct & Hs & Hf & Hl & Hn & He & _ & ->).
  exists ct, contents, name. simpl. auto 10.
Qed.

Lemma accepted_upload_is_stored_witness :
  exists ct contents name,
    content_type (upload "image/jpeg" "Tag.JPG" [255; 216; 255]%N) = Some ct
    /\ startswith ct (lit "image/") = true
    /\ file_body (upload "image/jpeg" "Tag.JPG" [255; 216; 255]%N) = inr contents
    /\ (Z.of_nat (length contents) <= MAX_FILE_SIZE default_settings)%Z
    /\ filename (upload "image/jpeg" "Tag.JPG" [255; 216; 255]%N) = Some name
    /\ str_lower test_host (path_suffix test_host name)
       ∈ ALLOWED_EXTENSIONS default_settings
    /\ uuids (snd (process_scout_image clahe_failing_world test_host
                     default_settings
                     (upload "image/jpeg" "Tag.JPG" [255; 216; 255]%N)
                     None None None None rst0)) = S (uuids rst0)
    /\ files (snd (process_scout_image clahe_failing_world test_host
                     default_settings
                     (upload "image/jpeg" "Tag.JPG" [255; 216; 255]%N)
                     None None None None rst0))
       = files rst0 ++ [(stored_path test_host default_settings (uuids rst0) name,
                         contents)].
Proof.
  assert (H : exists r,
             process_scout_image clahe_failing_world test_host default_settings
               (upload "image/jpeg" "Tag.JPG" [255; 216; 255]%N)
               None None None None rst0
             = (inr r,
                snd (process_scout_image clahe_failing_world test_host
                       default_settings
                       (upload "image/jpeg" "Tag.JPG" [255; 216; 255]%N)
                       None None None None rst0))).
  { vm_compute. eexists. reflexivity. }
  destruct H as [r H].
  apply (accepted_upload_is_stored clahe_failing_world test_host default_settings
           (upload "image/jpeg" "Tag.JPG" [255; 216; 255]%N)
           None None None None rst0 _ r H).
Defined.

(** X22: a task for the database is scheduled exactly when the agent
    reports success: then one task is added, carrying the record of the
    result, the path of the stored file, the coordinates given to the
    agent and the scout; the record itself carries the same coordinates.
    When the agent reports a failure no task is added. *)
Theorem task_scheduled_iff_success (w : World) (h : Host) (settings : Settings)
    (image : UploadFile) (lat lon : option float) (scout shop : option str)
    (st st' : rstate) (r : ProcessingResult) :
  process_scout_image w h settings image lat lon scout shop st = (inr r, st') ->
  (success r = true ->
   exists pd name,
     product_data r = Some pd /\ filename image = Some name
     /\ gps pd = both lat lon
     /\ tasks st'
        = tasks st ++ [{| task_product := pd;
                          task_path := stored_path h settings (uuids st) name;
                          task_gps := both lat lon;
                          task_scout := scout |}])
  /\ (success r = false -> tasks st' = tasks st).
Proof.
  unfold process_scout_image.
  destruct (process_scout_image_body w h settings image lat lon scout shop st)
    as [[[c d|x]|r0] st0'] eqn:Hb; try discriminate.
  intros [= <- <-].
  destruct (body_inr w h settings image lat lon scout shop st st0' r0 Hb)
    as (ct & contents & name & md & s' & _ & _ & _ & _ & Hn & _ & Hpi & ->).
  simpl. unfold scheduled.
  destruct (process_image_cases w _ _ _ _ _ _ Hpi)
    as [(Hs & pd & Hpd & Hg)|(Hs & Hpd)]; rewrite Hs, Hpd.
  - split; [|discriminate]. intros _. exists pd, name. auto.
  - split; [discriminate|]. intros _. apply app_nil_r.
Qed.

Lemma task_scheduled_iff_success_witness :
  exists r st',
    process_scout_image clahe_failing_world test_host default_settings
      (upload "image/jpeg" "tag.jpg" [255; 216; 255]%N)
      (Some 6.9271%float) (Some 79.8612%float) (Some (lit "scout-7")) None rst0
    = (inr r, st')
    /\ (success r = true ->
        exists pd name,
          product_data r = Some pd
          /\ filename (upload "image/jpeg" "tag.jpg" [255; 216; 255]%N) = Some name
          /\ gps pd = both (Some 6.9271%float) (Some 79.8612%float)
          /\ tasks st'
             = tasks rst0
               ++ [{| task_product := pd;
                      task_path :=
                        stored_path test_host default_settings (uuids rst0) name;
                      task_gps := both (Some 6.9271%float) (Some 79.8612%float);
                      task_scout := Some (lit "scout-7") |}])
    /\ (success r = false -> tasks st' = tasks rst0).
Proof.
  assert (H : exists r st',
             process_scout_image clahe_failing_world test_host default_settings
               (upload "image/jpeg" "tag.jpg" [255; 216; 255]%N)
               (Some 6.9271%float) (Some 79.8612%float) (Some (lit "scout-7"))
               None rst0 = (inr r, st')).
  { vm_compute. eexists _, _. reflexivity. }
  destruct H as (r & st' & H). exists r, st'. split; [exact H|].
  apply (task_scheduled_iff_success clahe_failing_world test_host default_settings
           (upload "image/jpeg" "tag.jpg" [255; 216; 255]%N)
           (Some 6.9271%float) (Some 79.8612%float) (Some (lit "scout-7"))
           None rst0 st' r H).
Defined.

(** X23: a latitude sent without a longitude, or a longitude without a
    latitude, has no effect at all: the request runs exactly as the same
    request with no coordinates -- the same answer or the same error, the
    same files and tasks --, so the lone coordinate raises no error of its
    own. When such a request returns a result, its record carries no
    coordinates, and neither does any task it schedules. *)
Theorem lone_coordinate_is_dropped (w : World) (h : Host) (settings : Settings)
    (image : UploadFile) (lat lon : option float) (scout shop : option str)
    (st : rstate) :
  lat = None \/ lon = None ->
  process_scout_image w h settings image lat lon scout shop st
  = process_scout_image w h settings image None None scout shop st
  /\ forall r st',
       process_scout_image w h settings image lat lon scout shop st = (inr r, st') ->
       (forall pd, product_data r = Some pd -> gps pd = None)
       /\ exists added,
            tasks st' = tasks st ++ added
            /\ Forall (fun t => task_gps t = None) added.
Proof.
  intros Hlone. split.
  { destruct Hlone as [-> | ->]; [|destruct lat]; reflexivity. }
  intros r st'. unfold process_scout_image.
  destruct (process_scout_image_body w h settings image lat lon scout shop st)
    as [[[c d|x]|r0] st0'] eqn:Hb; try discriminate.
  intros [= <- <-].
  destruct (body_inr w h settings image lat lon scout shop st st0' r0 Hb)
    as (ct & contents & name & md & s' & _ & _ & _ & _ & Hn & _ & Hpi & ->).
  assert (Hboth : both lat lon = None).
  { destruct Hlone as [-> | ->]; [|destruct lat]; reflexivity. }
  rewrite Hboth in *. simpl. split.
  - intros pd Hpd.
    destruct (process_image_cases w _ _ _ _ _ _ Hpi)
      as [(_ & pd' & Hpd' & Hg)|(_ & Hnone)]; congruence.
  - eexists. split; [reflexivity|]. unfold scheduled.
    destruct (product_data r0); [destruct (success r0)|]; repeat constructor.
Qed.

Lemma lone_coordinate_is_dropped_witness :
  process_scout_image clahe_failing_world test_host default_settings
    (upload "image/jpeg" "tag.jpg" [255; 216; 255]%N)
    (Some 6.9271%float) None None None rst0
  = process_scout_image clahe_failing_world test_host default_settings
      (upload "image/jpeg" "tag.jpg" [255; 216; 255]%N) None None None None rst0
  /\ forall r st',
       process_scout_image clahe_failing_world test_host default_settings
         (upload "image/jpeg" "tag.jpg" [255; 216; 255]%N)
         (Some 6.9271%float) None None None rst0 = (inr r, st') ->
       (forall pd, product_data r = Some pd -> gps pd = None)
       /\ exists added,
            tasks st' = tasks rst0 ++ added
            /\ Forall (fun t => task_gps t = None) added.
Proof.
  apply (lone_coordinate_is_dropped clahe_failing_world test_host default_settings
           (upload "image/jpeg" "tag.jpg" [255; 216; 255]%N)
           (Some 6.9271%float) None None None rst0).
  right. reflexivity.
Defined.

(** ** The batch endpoint *)

(** X24: [batch_process_images] raises in one case only: more than ten
    images, which is answered with HTTP 400 before anything is read or
    stored. Whatever happens to an image of a batch within the limit is
    reported in the entries, never raised. *)
Theorem batch_raises_only_over_limit (w : World) (h : Host)
    (settings : Settings) (images : list UploadFile) (scout : option str)
    (st st' : rstate) (e : rexn) :
  batch_process_images w h settings images scout st = (inl e, st')
  <-> (10 < length images)%nat
      /\ e = HTTPException 400 (lit "Maximum 10 images per batch") /\ st' = st.
Proof.
  unfold batch_process_images.
  destruct (10 <? length images)%nat eqn:Hl.
  - apply Nat.ltb_lt in Hl. unfold rraise. split.
    + intros [= <- <-]. auto.
    + intros (_ & -> & ->). reflexivity.
  - apply Nat.ltb_ge in Hl.
    destruct (batch_loop_entries w h settings images [] st)
      as (rs & st1 & a & -> & _). split; [discriminate|]. lia.
Qed.

(** X25: a batch of at most ten images returns one entry per image, in
    the order of the images, each under the file name of its image; the
    files stored before the call are still there, in front. *)
Theorem batch_has_one_entry_per_image (w : World) (h : Host)
    (settings : Settings) (images : list UploadFile) (scout : option str)
    (st : rstate) :
  (length images <= 10)%nat ->
  exists results st' added,
    batch_process_images w h settings images scout st = (inr results, st')
    /\ map entry_filename results = map filename images
    /\ files st' = files st ++ added.
Proof.
  intros Hl. unfold batch_process_images.
  apply Nat.ltb_ge in Hl. rewrite Hl.
  destruct (batch_loop_entries w h settings images [] st)
    as (rs & st1 & a & H & Hm & Hf).
  exists rs, st1, a. auto.
Qed.

Lemma batch_has_one_entry_per_image_witness :
  exists results st' added,
    batch_process_images clahe_failing_world test_host default_settings
      [upload "image/jpeg" "a.jpg" [1]%N;
       {| content_type := None; filename := None;
          file_body := inl (Exception "OSError" []) |};
       upload "image/png" "b.png" [2]%N] None rst0 = (inr results, st')
    /\ map entry_filename results
       = map filename
           [upload "image/jpeg" "a.jpg" [1]%N;
            {| content_type := None; filename := None;
               file_body := inl (Exception "OSError" []) |};
            upload "image/png" "b.png" [2]%N]
    /\ files st' = files rst0 ++ added.
Proof.
  apply (batch_has_one_entry_per_image clahe_failing_world test_host
           default_settings
           [upload "image/jpeg" "a.jpg" [1]%N;
            {| content_type := None; filename := None;
               file_body := inl (Exception "OSError" []) |};
            upload "image/png" "b.png" [2]%N] None rst0).
  simpl. lia.
Defined.

(** X26: the batch endpoint applies none of the checks of the single
    upload. On a host whose file system accepts every write, each
    readable image of the batch that has a file name is stored with its
    bytes under "scout_images/batch", whatever its declared type, its
    size and its extension. *)
Theorem batch_stores_without_checks (w : World) (h : Host)
    (settings : Settings) (images : list UploadFile) (scout : option str)
    (st st' : rstate) (results : list batch_entry)
    (image : UploadFile) (contents : list N) (name : str) :
  (forall p, mkdir_parent h p = inr tt) ->
  (forall p c, write_bytes h p c = inr tt) ->
  batch_process_images w h settings images scout st = (inr results, st') ->
  image ∈ images ->
  file_body image = inr contents ->
  filename image = Some name ->
  exists n, (batch_path h settings n name, contents) ∈ files st'.
Proof.
  intros Hm Hw. unfold batch_process_images.
  destruct (10 <? length images)%nat; [discriminate|].
  intros Hrun Hin Hb Hn.
  exact (batch_loop_stores w h settings images Hm Hw [] results st st' Hrun
           image contents name Hin Hb Hn).
Qed.

Lemma batch_stores_without_checks_witness :
  exists n,
    (batch_path test_host default_settings n (lit "run.exe"), [77; 90]%N)
    ∈ files (snd (batch_process_images clahe_failing_world test_host
                    default_settings
                    [upload "image/jpeg" "a.jpg" [1]%N;
                     upload "text/plain" "run.exe" [77; 90]%N] None rst0)).
Proof.
  assert (H : exists results,
             batch_process_images clahe_failing_world test_host default_settings
               [upload "image/jpeg" "a.jpg" [1]%N;
                upload "text/plain" "run.exe" [77; 90]%N] None rst0
             = (inr results,
                snd (batch_process_images clahe_failing_world test_host
                       default_settings
                       [upload "image/jpeg" "a.jpg" [1]%N;
                        upload "text/plain" "run.exe" [77; 90]%N] None rst0))).
  { vm_compute. eexists. reflexivity. }
  destruct H as [results H].
  apply (batch_stores_without_checks clahe_failing_world test_host
           default_settings
           [upload "image/jpeg" "a.jpg" [1]%N;
            upload "text/plain" "run.exe" [77; 90]%N] None rst0 _ results
           (upload "text/plain" "run.exe" [77; 90]%N) [77; 90]%N (lit "run.exe"));
    try reflexivity; try exact H.
  apply list_elem_of_further, list_elem_of_here.
Defined.
